(** * experiment_runner: task expansion, skip/resume decisions, result
      extraction and table aggregation

    A shallow embedding of [utils.py], [config.py], [algo_runner.py],
    [convert_fbs_to_csv.py] and the quick-test gate of
    [run_exp_for_config.py], followed by the properties of the pipeline.

    Conventions of the embedding.
    - A Python [str] is a [string]; its characters stand for the code points
      below 256, compared by code point as Python does.
    - A Python [int] is a [Z]; [str(n)] is stdpp's [pretty].
    - The file system is explicit state ([disk]); a loop that [continue]s or
      appends to a list is a fold over that state.
    - [sys.exit] and an exception that leaves a function are [None]. *)

From Stdlib Require Import ZArith Ascii String.
From stdpp Require Import gmap strings list pretty sorting.

Local Open Scope Z_scope.


(** ** Python string primitives *)

(** [str.isspace] for one character: the white space code points below 256. *)
Definition isspace (c : ascii) : bool :=
  let n := nat_of_ascii c in
  ((9 <=? n)%nat && (n <=? 13)%nat) || ((28 <=? n)%nat && (n <=? 32)%nat)
  || (n =? 133)%nat || (n =? 160)%nat.

Fixpoint lstrip (s : string) : string :=
  match s with
  | String c s' => if isspace c then lstrip s' else s
  | EmptyString => EmptyString
  end.

Definition rstrip (s : string) : string := String.rev (lstrip (String.rev s)).

(** [s.strip()] *)
Definition strip (s : string) : string := rstrip (lstrip s).

(** [s.split()] with no separator: the maximal runs of non-space characters.
    [cur] is the run being read, in reverse. *)
Fixpoint split_go (cur : option string) (s : string) : list string :=
  match s with
  | EmptyString =>
      match cur with Some w => [String.rev w] | None => [] end
  | String c s' =>
      if isspace c then
        match cur with
        | Some w => String.rev w :: split_go None s'
        | None => split_go None s'
        end
      else
        split_go (Some (String c (default EmptyString cur))) s'
  end.

Definition split (s : string) : list string := split_go None s.

(** [f.readline()] on the text of a file opened in text mode: everything up
    to and including the first newline. *)
Fixpoint readline (s : string) : string :=
  match s with
  | EmptyString => EmptyString
  | String c s' =>
      if Ascii.eqb c "010"%char then String c EmptyString
      else String c (readline s')
  end.

Definition startswith (p s : string) : bool := String.prefix p s.

Fixpoint last_char (s : string) : option ascii :=
  match s with
  | EmptyString => None
  | String c EmptyString => Some c
  | String _ s' => last_char s'
  end.

(** [os.path.join(a, b)] of [posixpath]: an absolute [b] replaces [a]. *)
Definition path_join (a b : string) : string :=
  if startswith "/" b then b
  else
    match last_char a with
    | None => b
    | Some c => if Ascii.eqb c "/"%char then a +:+ b else a +:+ "/" +:+ b
    end.

(** [s in xs] for a list of strings, [n in ks] for a list of integers. *)
Definition str_in (s : string) (xs : list string) : bool :=
  existsb (String.eqb s) xs.

Definition int_in (n : Z) (ks : list Z) : bool := existsb (Z.eqb n) ks.

(** [xs[:1]] *)
Definition first_only {A} (xs : list A) : list A := take 1 xs.

(** [list.sort(key=...)]: Python's sort is stable and only asks whether one
    key is less than another.  A stable sort has one possible result, the one
    this insertion sort computes: an element is placed before the first
    element of the sorted tail whose key is not smaller than its own. *)
Section Sort.
Context {A : Type} (lt : A → A → bool).

Fixpoint sort_insert (x : A) (l : list A) : list A :=
  match l with
  | [] => [x]
  | y :: l' => if lt y x then y :: sort_insert x l' else x :: y :: l'
  end.

Definition py_sort (l : list A) : list A := foldr sort_insert [] l.
End Sort.

(** ** config.py *)

Record set_config := SetConfig {
  cfg_k : list Z;
  cfg_additional_args : list string
}.

Definition SET_CONFIG : gmap string set_config :=
  list_to_map [
    ("tuning_set", SetConfig [4; 8; 16; 32; 64; 128; 256] []);
    ("test_set", SetConfig [4; 8; 16; 32; 64; 128; 256] []);
    ("tuning_set_fast", SetConfig [4; 32; 128] []);
    ("konect_cc_set", SetConfig [4; 8; 16; 32; 64; 128; 256] []);
    ("konect_cc_set_light", SetConfig [8] []);
    ("local_cc_set", SetConfig [8] []);
    ("default", SetConfig [4; 8; 16; 32; 64; 128; 256] [])
  ].

(** [cfg.SET_CONFIG.get(set_name, cfg.SET_CONFIG["default"])] *)
Definition set_config_or_default (set_name : string) : set_config :=
  default (SetConfig [4; 8; 16; 32; 64; 128; 256] []) (SET_CONFIG !! set_name).

Definition BASE_DIR_GRAPHS : string := "~/graphs/all".

(** ** The structured log *)

(** Modelled from the spec: the generated [PartitionInfo] classes are not
    among the sources.  The record follows the schema of section 6: graph
    metadata (filename, edge count), run configuration (seed, partition
    count), runtime (total time), memory (peak resident set size) and metrics
    (edge-cut).  A sub-table missing from the buffer is [None], as the
    generated accessors return it.  [Filename] is [None] when the accessor
    gives nothing, [Some None] when its bytes are not valid UTF-8, and
    [Some (Some s)] otherwise. *)
Record GraphMetadata := {
  Filename : option (option string);
  NumEdges : Z
}.

Record PartitionConfiguration := { Seed : Z; K : Z }.

Record PartitionLog (F : Type) := {
  log_GraphMetadata : option GraphMetadata;
  log_PartitionConfiguration : option PartitionConfiguration;
  log_Runtime_TotalTime : option F;
  log_MemoryConsumption_MaxRss : option Z;
  log_Metrics_EdgeCut : option Z
}.
Arguments log_GraphMetadata {F} _.
Arguments log_PartitionConfiguration {F} _.
Arguments log_Runtime_TotalTime {F} _.
Arguments log_MemoryConsumption_MaxRss {F} _.
Arguments log_Metrics_EdgeCut {F} _.

(** ** What the harness takes from its platform *)

Class Platform := {
  (** Python's [float] and its [str] *)
  pyfloat : Type;
  float_repr : pyfloat → string;
  (** [a / b] on two [int]s, for [b] other than zero *)
  truediv : Z → Z → pyfloat;
  (** [int(x)] on a [float] *)
  float_to_int : pyfloat → Z;
  (** [int(s)] on a [str]; [None] is [ValueError] *)
  py_int : string → option Z;
  (** [os.path.expanduser] *)
  expanduser : string → string;
  (** [socket.gethostname()[-3:]] *)
  SERVER : string;
  (** [PartitionLog.GetRootAsPartitionLog(buf, 0)]; [None] when decoding
      raises *)
  GetRootAsPartitionLog : string → option (PartitionLog pyfloat)
}.

(** ** Values, records and the disk *)

Inductive pyval `{Platform} :=
  | PInt (n : Z)
  | PStr (s : string)
  | PFloat (x : pyfloat).

(** [str(v)] *)
Definition py_str `{Platform} (v : pyval) : string :=
  match v with
  | PInt n => pretty n
  | PStr s => s
  | PFloat x => float_repr x
  end.

(** One row of the table, as the dictionary the code builds.  [graph] is
    always a [str] and [k] always an [int] at the places that build rows. *)
Record result `{Platform} := Result {
  alg_name : string;
  graph : string;
  seed : pyval;
  k : Z;
  runtime : pyval;
  memory : pyval;
  edge_cut : pyval;
  solution_quality : pyval;
  success : string
}.

(** A line of the table file, under the header [utils.fieldnames]. *)
Record csv_row := CsvRow {
  c_alg_name : string;
  c_graph : string;
  c_seed : string;
  c_k : string;
  c_runtime : string;
  c_memory : string;
  c_edge_cut : string;
  c_solution_quality : string;
  c_success : string
}.

(** A file is its text as [read()] returns it, or cannot be read. *)
Inductive file :=
  | Text (content : string)
  | Unreadable.

(** Table files end in [.csv], temp files in [.txt] and artifacts in [.bin],
    so a table never shares its path with one of the others; the tables are
    kept as parsed lines, apart from the other files. *)
Record disk := Disk {
  files : gmap string file;
  tables : gmap string (list csv_row);
  dirs : gset string
}.

Definition set_files (fs : gmap string file) (d : disk) : disk :=
  Disk fs (tables d) (dirs d).

Definition set_tables (ts : gmap string (list csv_row)) (d : disk) : disk :=
  Disk (files d) ts (dirs d).

(** [os.makedirs(p, exist_ok=True)]; only [p] itself is recorded. *)
Definition makedirs (p : string) (d : disk) : disk :=
  Disk (files d) (tables d) ({[p]} ∪ dirs d).

(** [os.path.exists(p)] for a directory *)
Definition exists_dir (d : disk) (p : string) : bool :=
  bool_decide (p ∈ dirs d).

(** [os.path.exists(p)] for a table file *)
Definition exists_table (d : disk) (p : string) : bool :=
  bool_decide (is_Some (tables d !! p)).

(** [os.path.exists(p)] for a temp file or an artifact *)
Definition exists_file (d : disk) (p : string) : bool :=
  bool_decide (is_Some (files d !! p)).

(** [os.remove(p)] *)
Definition remove_file (p : string) (d : disk) : disk :=
  set_files (delete p (files d)) d.

(** [os.rename(src, dst)] for a file [src] that exists *)
Definition rename_file (src dst : string) (d : disk) : disk :=
  match files d !! src with
  | Some f => set_files (<[dst := f]> (delete src (files d))) d
  | None => d
  end.

(** [open(p, "w")] followed by [write(s)] *)
Definition write_file (p s : string) (d : disk) : disk :=
  set_files (<[p := Text s]> (files d)) d.

(** ** utils.py *)

Definition get_graph_name (graph ordering : string) : option string :=
  if String.eqb ordering "natural" then Some graph
  else if String.eqb ordering "random" then Some (graph +:+ "_r1")
  else if String.eqb ordering "random2" then Some (graph +:+ "_r2")
  else if String.eqb ordering "random3" then Some (graph +:+ "_r3")
  else None.

(** [f"{max_cores}core{'' if max_cores == 1 else 's'}"] *)
Definition cores_dir (max_cores : Z) : string :=
  pretty max_cores +:+ "core" +:+ (if Z.eqb max_cores 1 then EmptyString else "s").

Definition BASE_DIR_OUTPUT `{Platform} : string := "~/results/" +:+ SERVER.

Definition BASE_DIR_PROCESSED_OUTPUT `{Platform} : string :=
  "~/results/processed_results/" +:+ SERVER.

Definition get_fbs_output_dir `{Platform}
    (set_name ordering alg : string) (max_cores : Z) : string :=
  expanduser
    (path_join
       (path_join
          (BASE_DIR_OUTPUT +:+ "/fbs_" +:+ set_name +:+ "/" +:+ ordering)
          (cores_dir max_cores))
       alg).

Definition get_processed_output_dir `{Platform}
    (set_name ordering : string) (max_cores : Z) : string :=
  expanduser
    (BASE_DIR_PROCESSED_OUTPUT +:+ "/" +:+ set_name +:+ "/" +:+ ordering
       +:+ "/" +:+ cores_dir max_cores).

Definition produce_result `{Platform} (alg graph_id : string) (seed_v : pyval)
    (k_v : Z) (runtime_v memory_v edge_cut_v ECR : pyval) : result :=
  {| alg_name := alg;
     graph := graph_id;
     seed := seed_v;
     k := k_v;
     runtime := runtime_v;
     memory := memory_v;
     edge_cut := edge_cut_v;
     solution_quality := ECR;
     success := if negb (String.eqb (py_str edge_cut_v) "0") then "1" else "0" |}.

Definition produce_failed_result `{Platform} (alg graph_id : string)
    (k_v : Z) : result :=
  {| alg_name := alg;
     graph := graph_id;
     seed := PStr "0";
     k := k_v;
     runtime := PStr "0";
     memory := PStr "0";
     edge_cut := PStr "0";
     solution_quality := PStr "0";
     success := "0" |}.

Record Task := {
  task_k : Z;
  raw_graph_name : string;
  graph_path : string;
  stream_buffer : string;
  max_pq_size : string;
  old_target_path : string;
  fbs_target_path : string
}.

(** ** algo_runner.py: the structured-log family ([_run_algo_parallel]) *)

Inductive decision := EXECUTE | SKIP.

Global Instance decision_eq_dec : EqDecision decision.
Proof. solve_decision. Defined.

(** ["heistream" in self.algo_type] *)
Definition is_heistream (algo_type : string) : bool :=
  bool_decide (is_Some (String.index 0 "heistream" algo_type)).

(** The stream buffer of one Task: the hyperparameter or the family's
    default, replaced by [str(int(int(max_pq_size) / int(bb_ratio)))] when a
    buffer ratio is given outside the heistream family.  [None] is the
    [ValueError] of [int] or the [ZeroDivisionError] of the division. *)
Definition task_stream_buffer `{Platform} (heistream : bool)
    (hyperparam_dict : gmap string string) (max_pq : string) : option string :=
  let stream_buffer :=
    default (if heistream then "32768" else "16384")
            (hyperparam_dict !! "stream_buffer") in
  match hyperparam_dict !! "bb_ratio" with
  | Some ratio =>
      if negb heistream then
        a ← py_int max_pq;
        b ← py_int ratio;
        if Z.eqb b 0 then None
        else Some (pretty (float_to_int (truediv a b)))
      else Some stream_buffer
  | None => Some stream_buffer
  end.

(** The body of the two nested loops of lines 166-199. *)
Definition make_task `{Platform} (heistream : bool) (fbs_output_folder : string)
    (ordering : string) (hyperparam_dict : gmap string string)
    (k_v : Z) (graph_id : string) : option Task :=
  raw ← get_graph_name graph_id ordering;
  let max_pq := default "131072" (hyperparam_dict !! "max_pq_size") in
  buffer ← task_stream_buffer heistream hyperparam_dict max_pq;
  let fbs_filename :=
    if heistream then raw +:+ "_" +:+ pretty k_v +:+ "_" +:+ buffer +:+ ".bin"
    else raw +:+ "_" +:+ pretty k_v +:+ "_" +:+ buffer +:+ "_" +:+ max_pq
             +:+ ".bin" in
  let old_fbs_filename :=
    if heistream then fbs_filename
    else raw +:+ "_" +:+ pretty k_v +:+ "_" +:+ buffer +:+ ".bin" in
  Some {| task_k := k_v;
          raw_graph_name := raw;
          graph_path :=
            expanduser (path_join BASE_DIR_GRAPHS (raw +:+ ".graph"));
          stream_buffer := buffer;
          max_pq_size := max_pq;
          old_target_path := path_join fbs_output_folder old_fbs_filename;
          fbs_target_path := path_join fbs_output_folder fbs_filename |}.

(** [for graph in graph_set: ... tasklist.append(task)] for one [k] *)
Fixpoint expand_graphs `{Platform} (heistream : bool)
    (fbs_output_folder ordering : string)
    (hyperparam_dict : gmap string string)
    (k_v : Z) (graph_set : list string) : option (list Task) :=
  match graph_set with
  | [] => Some []
  | g :: gs =>
      t ← make_task heistream fbs_output_folder ordering hyperparam_dict k_v g;
      ts ← expand_graphs heistream fbs_output_folder ordering hyperparam_dict
             k_v gs;
      Some (t :: ts)
  end.

(** [for k in v_k: for graph in graph_set: ...] *)
Fixpoint expand_tasks `{Platform} (heistream : bool)
    (fbs_output_folder ordering : string)
    (hyperparam_dict : gmap string string)
    (v_k : list Z) (graph_set : list string) : option (list Task) :=
  match v_k with
  | [] => Some []
  | k_v :: ks =>
      row ← expand_graphs heistream fbs_output_folder ordering
              hyperparam_dict k_v graph_set;
      rest ← expand_tasks heistream fbs_output_folder ordering
               hyperparam_dict ks graph_set;
      Some (row ++ rest)
  end.

(** The body of the loop of lines 201-250 up to the point where the command
    is built: [SKIP] is [continue], [EXECUTE] reaches the command. *)
Definition decide_task (overwrite : bool) (t : Task) (d : disk)
    : disk * decision :=
  if overwrite then
    let d1 :=
      if exists_file d (fbs_target_path t)
      then remove_file (fbs_target_path t) d else d in
    let d2 :=
      if exists_file d1 (old_target_path t)
      then remove_file (old_target_path t) d1 else d1 in
    (d2, EXECUTE)
  else if exists_file d (fbs_target_path t) then (d, SKIP)
  else if exists_file d (old_target_path t) then
    (rename_file (old_target_path t) (fbs_target_path t) d, SKIP)
  else (d, EXECUTE).

(** The whole loop: the disk it leaves and, in order, the decision taken for
    each Task. *)
Fixpoint decide_tasks (overwrite : bool) (ts : list Task) (d : disk)
    : disk * list (Task * decision) :=
  match ts with
  | [] => (d, [])
  | t :: ts' =>
      let '(d1, dec) := decide_task overwrite t d in
      let '(d2, decs) := decide_tasks overwrite ts' d1 in
      (d2, (t, dec) :: decs)
  end.

(** The Tasks a command is built for. *)
Definition to_execute (decs : list (Task * decision)) : list Task :=
  fst <$> filter (λ td, td.2 = EXECUTE) decs.

(** ** The batch of commands *)

Record task_info := {
  ti_graph_name : string;
  ti_k : Z;
  ti_temp_file : string
}.

(** A command line is kept as the Task it runs; its text is not modelled.
    [_run_parallel_commands] is a parameter of the runs below: any function
    from the batch and the disk before it to the disk after it. *)
Inductive command :=
  | LogCommand (t : Task)
  | TextCommand (ti : task_info).

Definition executor := list command → disk → disk.

(** [if commands_to_execute: self._run_parallel_commands(...)] *)
Definition submit (run_parallel_commands : executor) (cmds : list command)
    (d : disk) : disk :=
  match cmds with
  | [] => d
  | _ :: _ => run_parallel_commands cmds d
  end.

(** ** convert_fbs_to_csv.py *)

(** [None] is an exception, [Some None] is [return None]. *)
Definition parse_flatbuffer_file `{Platform} (file_path alg set_name : string)
    (d : disk) : option (option result) :=
  match files d !! file_path with
  | Some (Text buf) =>
      partition_log ← GetRootAsPartitionLog buf;
      graph_meta ← log_GraphMetadata partition_log;
      graph_name ← match Filename graph_meta with
                    | Some decoded => decoded
                    | None => Some EmptyString
                    end;
      config ← log_PartitionConfiguration partition_log;
      let seed_v := Seed config in
      let k_v := K config in
      set_cfg ← SET_CONFIG !! set_name;
      if negb (int_in k_v (cfg_k set_cfg)) then Some None
      else
        runtime_v ← log_Runtime_TotalTime partition_log;
        memory_v ← log_MemoryConsumption_MaxRss partition_log;
        edge_cut_v ← log_Metrics_EdgeCut partition_log;
        if Z.eqb (NumEdges graph_meta) 0 then None
        else
          Some (Some (produce_result alg graph_name (PInt seed_v) k_v
                        (PFloat runtime_v) (PInt memory_v) (PInt edge_cut_v)
                        (PFloat (truediv edge_cut_v (NumEdges graph_meta)))))
  | Some Unreadable => None
  | None => None
  end.

(** The body of the loop of [main], lines 96-110: the row one Task adds. *)
Definition extract_log `{Platform} (alg set_name : string) (d : disk)
    (t : Task) : result :=
  if exists_file d (fbs_target_path t) then
    match parse_flatbuffer_file (fbs_target_path t) alg set_name d with
    | Some (Some data) => data
    | Some None => produce_failed_result alg (raw_graph_name t) (task_k t)
    | None => produce_failed_result alg (raw_graph_name t) (task_k t)
    end
  else produce_failed_result alg (raw_graph_name t) (task_k t).

(** [csv.DictWriter.writerow]: every value through [str]. *)
Definition render_row `{Platform} (r : result) : csv_row :=
  {| c_alg_name := alg_name r;
     c_graph := graph r;
     c_seed := py_str (seed r);
     c_k := pretty (k r);
     c_runtime := py_str (runtime r);
     c_memory := py_str (memory r);
     c_edge_cut := py_str (edge_cut r);
     c_solution_quality := py_str (solution_quality r);
     c_success := success r |}.

Definition write_table `{Platform} (p : string) (rows : list result)
    (d : disk) : disk :=
  set_tables (<[p := render_row <$> rows]> (tables d)) d.

Definition k_lt `{Platform} (x y : result) : bool := Z.ltb (k x) (k y).

Definition graph_lt `{Platform} (x y : result) : bool :=
  String.ltb (graph x) (graph y).

(** The rows [main] collects and sorts, first by [k], then by [graph]. *)
Definition convert_rows `{Platform} (tasklist : list Task)
    (alg set_name : string) (d : disk) : list result :=
  py_sort graph_lt (py_sort k_lt (extract_log alg set_name d <$> tasklist)).

Definition convert_main `{Platform} (tasklist : list Task)
    (alg set_name ordering : string) (max_cores : Z) (d : disk) : disk :=
  let fbs_dir := get_fbs_output_dir set_name ordering alg max_cores in
  let processed_output_dir :=
    get_processed_output_dir set_name ordering max_cores in
  let output_csv := path_join processed_output_dir (alg +:+ ".csv") in
  let d1 := makedirs processed_output_dir d in
  if negb (exists_dir d1 fbs_dir) then d1
  else write_table output_csv (convert_rows tasklist alg set_name d1) d1.

(** ** [_run_algo_parallel] as a whole *)

(** Everything the run computes: the disk it leaves, [tasklist], and the
    decision taken for each Task. *)
Record log_run := LogRun {
  lr_disk : disk;
  lr_tasklist : list Task;
  lr_decisions : list (Task * decision)
}.

(** [os.chdir(p)]: [None] is the exception raised when [p] is no directory.
    Every path the run uses comes out of [expanduser] and is taken as
    absolute, so the working directory matters through this test only. *)
Definition chdir (p : string) (d : disk) : option unit :=
  if exists_dir d p then Some () else None.

(** The directory of line 265, [os.chdir("/home/lbaumgaertner/scripts")]. *)
Definition scripts_dir : string := "/home/lbaumgaertner/scripts".

(** The function, with [graph_set] what [utils.read_graph_set(set_name)]
    returned and [v_k] what [set_config["k"]] is. *)
Definition algo_parallel_body `{Platform} (run_parallel_commands : executor)
    (algo_type : string) (overwrite quick_test : bool)
    (set_name ordering : string) (hyperparam_dict : gmap string string)
    (alg : string) (max_cores : Z) (v_k : list Z) (graph_set : list string)
    (d : disk) : option log_run :=
  let heistream := is_heistream algo_type in
  let fbs_output_folder :=
    get_fbs_output_dir set_name ordering alg max_cores in
  let d0 := makedirs fbs_output_folder d in
  _ ← chdir fbs_output_folder d0;
  let graph_set1 := if quick_test then first_only graph_set else graph_set in
  let v_k1 := if quick_test then first_only v_k else v_k in
  tasklist ← expand_tasks heistream fbs_output_folder ordering
               hyperparam_dict v_k1 graph_set1;
  let '(d1, decs) := decide_tasks overwrite tasklist d0 in
  let d2 := submit run_parallel_commands (LogCommand <$> to_execute decs) d1 in
  let d3 := if quick_test then d2
            else convert_main tasklist alg set_name ordering max_cores d2 in
  _ ← chdir scripts_dir d3;
  Some (LogRun d3 tasklist decs).

Definition run_algo_parallel `{Platform} (run_parallel_commands : executor)
    (algo_type : string) (overwrite quick_test : bool)
    (set_name ordering : string) (hyperparam_dict : gmap string string)
    (alg : string) (max_cores : Z) (graph_set : list string) (d : disk)
    : option disk :=
  lr_disk <$> algo_parallel_body run_parallel_commands algo_type overwrite
                quick_test set_name ordering hyperparam_dict alg max_cores
                (cfg_k (set_config_or_default set_name)) graph_set d.

(** ** algo_runner.py: the text family ([_run_cuttana_parallel]) *)

(** A row read by [csv.DictReader], after [row["k"] = int(row["k"])]. *)
Definition row_of_csv `{Platform} (r : csv_row) (k_v : Z) : result :=
  {| alg_name := c_alg_name r;
     graph := c_graph r;
     seed := PStr (c_seed r);
     k := k_v;
     runtime := PStr (c_runtime r);
     memory := PStr (c_memory r);
     edge_cut := PStr (c_edge_cut r);
     solution_quality := PStr (c_solution_quality r);
     success := c_success r |}.

(** Lines 293-298: the rows of the table whose [k] is in [v_k].  [None] is
    the [ValueError] of [int]. *)
Fixpoint load_existing `{Platform} (v_k : list Z) (csv : list csv_row)
    : option (list result) :=
  match csv with
  | [] => Some []
  | r :: rs =>
      k_v ← py_int (c_k r);
      rest ← load_existing v_k rs;
      Some (if int_in k_v v_k then row_of_csv r k_v :: rest else rest)
  end.

(** Lines 290-301. *)
Definition open_table `{Platform} (overwrite : bool) (v_k : list Z)
    (output_csv_path : string) (d : disk) : option (disk * list result) :=
  match tables d !! output_csv_path with
  | Some csv =>
      if negb overwrite then
        rows ← load_existing v_k csv;
        Some (d, rows)
      else Some (set_tables (delete output_csv_path (tables d)) d, [])
  | None => Some (d, [])
  end.

(** [any(row["graph"] == raw_graph_name and row["k"] == k for row in rows)] *)
Definition in_rows `{Platform} (rows : list result) (raw : string) (k_v : Z)
    : bool :=
  existsb (λ row, String.eqb (graph row) raw && Z.eqb (k row) k_v) rows.

Definition temp_result_path (alg_temp_dir raw : string) (k_v : Z) : string :=
  path_join alg_temp_dir (raw +:+ "_" +:+ pretty k_v +:+ ".txt").

(** What the scan of lines 312-399 carries: the disk, [existing_data_rows]
    and [task_infos]. *)
Record scan `{Platform} := Scan {
  sc_disk : disk;
  sc_rows : list result;
  sc_tasks : list task_info
}.
Arguments Scan {_} _ _ _.

(** Lines 324-358, entered when the temp file exists and overwrite is off.
    [len(parts) >= 4] followed by [parts[:4]] is the match on four leading
    tokens. *)
Definition check_temp_file `{Platform} (alg raw : string) (k_v : Z)
    (temp_result_file : string) (st : scan) : scan * decision :=
  let removed :=
    Scan (remove_file temp_result_file (sc_disk st)) (sc_rows st)
         (sc_tasks st) in
  match files (sc_disk st) !! temp_result_file with
  | Some (Text text) =>
      let content := strip text in
      if negb (String.eqb content EmptyString) then
        match split content with
        | runtime_v :: memory_v :: edge_cut_v :: edge_cut_ratio :: _ =>
            let row :=
              produce_result alg raw (PStr "0") k_v (PStr runtime_v)
                (PStr memory_v) (PStr edge_cut_v) (PStr edge_cut_ratio) in
            (Scan (sc_disk st) (sc_rows st ++ [row]) (sc_tasks st), SKIP)
        | _ => (removed, EXECUTE)
        end
      else (removed, EXECUTE)
  | Some Unreadable => (removed, EXECUTE)
  | None => (st, EXECUTE)
  end.

(** The body of the inner loop, lines 314-399. *)
Definition visit_pair `{Platform} (overwrite : bool)
    (alg alg_temp_dir raw : string) (k_v : Z) (st : scan) : scan * decision :=
  if negb overwrite && in_rows (sc_rows st) raw k_v then (st, SKIP)
  else
    let temp_result_file := temp_result_path alg_temp_dir raw k_v in
    let '(st1, dec) :=
      if exists_file (sc_disk st) temp_result_file && negb overwrite
      then check_temp_file alg raw k_v temp_result_file st
      else (st, EXECUTE) in
    match dec with
    | SKIP => (st1, SKIP)
    | EXECUTE =>
        (Scan (sc_disk st1) (sc_rows st1)
              (sc_tasks st1 ++ [{| ti_graph_name := raw; ti_k := k_v;
                                   ti_temp_file := temp_result_file |}]),
         EXECUTE)
    end.

(** [for k in v_k: ...] for one graph; the decisions are listed in order. *)
Fixpoint scan_ks `{Platform} (overwrite : bool)
    (alg alg_temp_dir ordering graph_id : string) (v_k : list Z) (st : scan)
    : option (scan * list (string * Z * decision)) :=
  match v_k with
  | [] => Some (st, [])
  | k_v :: ks =>
      raw ← get_graph_name graph_id ordering;
      let '(st1, dec) := visit_pair overwrite alg alg_temp_dir raw k_v st in
      '(st2, decs) ← scan_ks overwrite alg alg_temp_dir ordering graph_id
                       ks st1;
      Some (st2, (raw, k_v, dec) :: decs)
  end.

(** [for graph in graph_set: for k in v_k: ...] *)
Fixpoint scan_graphs `{Platform} (overwrite : bool)
    (alg alg_temp_dir ordering : string) (graph_set : list string)
    (v_k : list Z) (st : scan)
    : option (scan * list (string * Z * decision)) :=
  match graph_set with
  | [] => Some (st, [])
  | g :: gs =>
      '(st1, decs1) ← scan_ks overwrite alg alg_temp_dir ordering g v_k st;
      '(st2, decs2) ← scan_graphs overwrite alg alg_temp_dir ordering gs
                        v_k st1;
      Some (st2, decs1 ++ decs2)
  end.

(** Lines 411-437: the row read from the first line of a temp file. *)
Definition parse_temp_line `{Platform} (alg : string) (ti : task_info)
    (d : disk) : option result :=
  match files d !! ti_temp_file ti with
  | Some (Text text) =>
      let line := strip (readline text) in
      if negb (String.eqb line EmptyString) then
        match split line with
        | runtime_v :: memory_v :: edge_cut_v :: quality_v :: _ =>
            Some {| alg_name := alg;
                    graph := ti_graph_name ti;
                    seed := PStr "0";
                    k := ti_k ti;
                    runtime := PStr runtime_v;
                    memory := PStr memory_v;
                    edge_cut := PStr edge_cut_v;
                    solution_quality := PStr quality_v;
                    success :=
                      if negb (String.eqb (py_str (PStr edge_cut_v)) "0")
                      then "1" else "0" |}
        | _ => None
        end
      else None
  | Some Unreadable => None
  | None => None
  end.

(** The body of the loop of lines 408-447. *)
Definition extract_temp `{Platform} (alg : string) (ti : task_info)
    (acc : disk * list result) : disk * list result :=
  let '(d, rows) := acc in
  match parse_temp_line alg ti d with
  | Some row => (d, rows ++ [row])
  | None =>
      (write_file (ti_temp_file ti) "0 0 0 0" d,
       rows ++ [produce_failed_result alg (ti_graph_name ti) (ti_k ti)])
  end.

Definition extract_temps `{Platform} (alg : string) (tis : list task_info)
    (acc : disk * list result) : disk * list result :=
  foldl (λ a ti, extract_temp alg ti a) acc tis.

(** The key [(x["graph"], x["k"])], compared as Python compares tuples. *)
Definition graph_k_lt `{Platform} (x y : result) : bool :=
  String.ltb (graph x) (graph y)
  || (String.eqb (graph x) (graph y) && Z.ltb (k x) (k y)).

(** Everything the run computes: the disk it leaves, the rows it holds at
    the end, the decisions of the scan, and the rows it writes, if any. *)
Record text_run `{Platform} := TextRun {
  tr_disk : disk;
  tr_rows : list result;
  tr_decisions : list (string * Z * decision);
  tr_written : option (list result)
}.
Arguments TextRun {_} _ _ _ _.

Definition cuttana_csv_path `{Platform} (set_name ordering alg : string)
    (max_cores : Z) : string :=
  path_join (get_processed_output_dir set_name ordering max_cores)
            (alg +:+ ".csv").

Definition cuttana_temp_dir `{Platform} (set_name ordering alg : string)
    (max_cores : Z) : string :=
  path_join
    (path_join (get_processed_output_dir set_name ordering max_cores)
               "temp_results")
    alg.

(** The function after [v_k = set_config["k"]]. *)
Definition cuttana_parallel_body `{Platform} (run_parallel_commands : executor)
    (overwrite quick_test : bool) (set_name ordering alg : string)
    (max_cores : Z) (v_k : list Z) (graph_set : list string) (d : disk)
    : option text_run :=
  let graph_set1 := if quick_test then first_only graph_set else graph_set in
  let v_k1 := if quick_test then first_only v_k else v_k in
  let processed_output_dir :=
    get_processed_output_dir set_name ordering max_cores in
  let output_csv_path := cuttana_csv_path set_name ordering alg max_cores in
  let d0 := makedirs processed_output_dir d in
  '(d1, existing_data_rows) ← open_table overwrite v_k1 output_csv_path d0;
  let alg_temp_dir := cuttana_temp_dir set_name ordering alg max_cores in
  let d2 := makedirs alg_temp_dir d1 in
  '(st, decs) ← scan_graphs overwrite alg alg_temp_dir ordering graph_set1
                  v_k1 (Scan d2 existing_data_rows []);
  let '(d3, rows) :=
    match sc_tasks st with
    | [] => (sc_disk st, sc_rows st)
    | _ :: _ =>
        extract_temps alg (sc_tasks st)
          (run_parallel_commands (TextCommand <$> sc_tasks st) (sc_disk st),
           sc_rows st)
    end in
  match rows with
  | _ :: _ =>
      if negb quick_test then
        let sorted := py_sort graph_k_lt rows in
        Some (TextRun (write_table output_csv_path sorted d3) sorted decs
                      (Some sorted))
      else Some (TextRun d3 rows decs None)
  | [] => Some (TextRun d3 rows decs None)
  end.

Definition run_cuttana_parallel `{Platform} (run_parallel_commands : executor)
    (overwrite quick_test : bool) (set_name ordering alg : string)
    (max_cores : Z) (graph_set : list string) (d : disk) : option disk :=
  tr_disk <$> cuttana_parallel_body run_parallel_commands overwrite
                quick_test set_name ordering alg max_cores
                (cfg_k (set_config_or_default set_name)) graph_set d.

(** [AlgorithmRunner.run] *)
Definition run `{Platform} (run_parallel_commands : executor)
    (algo_type : string) (overwrite quick_test : bool)
    (set_name ordering : string) (hyperparam_dict : gmap string string)
    (alg : string) (max_cores : Z) (graph_set : list string) (d : disk)
    : option disk :=
  if startswith "cuttana" algo_type then
    run_cuttana_parallel run_parallel_commands overwrite quick_test set_name
      ordering alg max_cores graph_set d
  else
    run_algo_parallel run_parallel_commands algo_type overwrite quick_test
      set_name ordering hyperparam_dict alg max_cores graph_set d.

(** run_exp_for_config.py, lines 62-64: whether [main] runs a configuration
    at all. *)
Definition main_runs_configuration (quick_test : bool) (algo : string)
    : bool :=
  negb (quick_test && startswith "cuttana" algo).

(** ** Notions the properties are stated with *)

(** The suffix an ordering appends to a graph identifier. *)
Definition ordering_suffix (ordering : string) : option string :=
  if String.eqb ordering "natural" then Some EmptyString
  else if String.eqb ordering "random" then Some "_r1"
  else if String.eqb ordering "random2" then Some "_r2"
  else if String.eqb ordering "random3" then Some "_r3"
  else None.

(** The two nestings of a loop over partition counts and graphs. *)
Definition k_major {A} (v_k : list Z) (graphs : list A) : list (Z * A) :=
  concat ((λ k_v, (λ g, (k_v, g)) <$> graphs) <$> v_k).

Definition graph_major {A} (graphs : list A) (v_k : list Z) : list (A * Z) :=
  concat ((λ g, (λ k_v, (g, k_v)) <$> v_k) <$> graphs).

Definition task_key (t : Task) : Z * string := (task_k t, raw_graph_name t).

Definition task_pair (ti : task_info) : string * Z :=
  (ti_graph_name ti, ti_k ti).

(** The pairs a scan decided to execute, in the order it met them. *)
Definition executed (decs : list (string * Z * decision)) : list (string * Z) :=
  fst <$> filter (λ x, x.2 = EXECUTE) decs.

Definition row_key `{Platform} (r : result) : string * Z := (graph r, k r).

(** The scan of the text family over a flat list of pairs. *)
Fixpoint visit_all `{Platform} (overwrite : bool) (alg alg_temp_dir : string)
    (pairs : list (string * Z)) (st : scan)
    : scan * list (string * Z * decision) :=
  match pairs with
  | [] => (st, [])
  | (raw, k_v) :: rest =>
      let '(st1, dec) := visit_pair overwrite alg alg_temp_dir raw k_v st in
      let '(st2, decs) := visit_all overwrite alg alg_temp_dir rest st1 in
      (st2, (raw, k_v, dec) :: decs)
  end.

(** The order of the table: by graph, then by [k]. *)
Definition graph_k_le `{Platform} (x y : result) : Prop :=
  String.ltb (graph x) (graph y) = true
  ∨ (graph x = graph y ∧ k x ≤ k y).

(** The order by partition count alone. *)
Definition k_le `{Platform} (x y : result) : Prop := k x ≤ k y.




(** A text of white space only. *)
Fixpoint all_space (s : string) : bool :=
  match s with
  | EmptyString => true
  | String c s' => isspace c && all_space s'
  end.

(** The row the extraction loop of the text family appends for a Task. *)
Definition temp_row `{Platform} (alg : string) (ti : task_info) (d : disk)
    : result :=
  default (produce_failed_result alg (ti_graph_name ti) (ti_k ti))
          (parse_temp_line alg ti d).

(** From the words of the specification: the edge-cut text parses as a
    number, and the number is not zero.  A number is an optional sign, digits
    and at most one decimal point. *)
Definition is_digit (c : ascii) : bool :=
  let n := nat_of_ascii c in (48 <=? n)%nat && (n <=? 57)%nat.

Fixpoint number_shape (seen_dot : bool) (s : string) : bool :=
  match s with
  | EmptyString => true
  | String c s' =>
      if is_digit c then number_shape seen_dot s'
      else if Ascii.eqb c "."%char && negb seen_dot then number_shape true s'
      else false
  end.

Fixpoint has_digit_above (low : nat) (s : string) : bool :=
  match s with
  | EmptyString => false
  | String c s' =>
      (is_digit c && (low <=? nat_of_ascii c)%nat) || has_digit_above low s'
  end.

Definition unsigned (s : string) : string :=
  match s with
  | String c s' =>
      if Ascii.eqb c "-"%char || Ascii.eqb c "+"%char then s' else s
  | EmptyString => s
  end.

Definition parses_nonzero (s : string) : bool :=
  let u := unsigned s in
  number_shape false u && has_digit_above 48 u && has_digit_above 49 u.

(** ** A platform to evaluate the embedding on

    Floats are kept as exact fractions, [int] reads an optionally signed run
    of decimal digits, the home directory is [/home/user], and a log is
    decoded from seven text fields: file name, edge count, seed, partition
    count, milliseconds, peak memory and edge-cut. *)
Definition digit_value (c : ascii) : option Z :=
  if is_digit c then Some (Z.of_nat (nat_of_ascii c - 48)) else None.

Fixpoint digits_value (acc : Z) (s : string) : option Z :=
  match s with
  | EmptyString => Some acc
  | String c s' => v ← digit_value c; digits_value (10 * acc + v) s'
  end.

Definition decimal_int (s : string) : option Z :=
  match strip s with
  | EmptyString => None
  | String c rest =>
      if Ascii.eqb c "-"%char then
        match rest with
        | EmptyString => None
        | _ => Z.opp <$> digits_value 0 rest
        end
      else digits_value 0 (String c rest)
  end.

Definition home_expanduser (p : string) : string :=
  match p with
  | String c rest => if Ascii.eqb c "~"%char then "/home/user" +:+ rest else p
  | EmptyString => p
  end.

Definition text_log (buf : string) : option (PartitionLog (Z * Z)) :=
  match split buf with
  | [name; edges; seed_t; k_t; millis; rss; cut] =>
      e ← decimal_int edges;
      s ← decimal_int seed_t;
      kv ← decimal_int k_t;
      ms ← decimal_int millis;
      m ← decimal_int rss;
      c ← decimal_int cut;
      Some {| log_GraphMetadata :=
                Some {| Filename := Some (Some name); NumEdges := e |};
              log_PartitionConfiguration := Some {| Seed := s; K := kv |};
              log_Runtime_TotalTime := Some (ms, 1000);
              log_MemoryConsumption_MaxRss := Some m;
              log_Metrics_EdgeCut := Some c |}
  | _ => None
  end.

Definition reference_platform : Platform :=
  {| pyfloat := Z * Z;
     float_repr := λ x, pretty x.1 +:+ "/" +:+ pretty x.2;
     truediv := λ a b, (a, b);
     float_to_int := λ x, Z.quot x.1 x.2;
     py_int := decimal_int;
     expanduser := home_expanduser;
     SERVER := "s01";
     GetRootAsPartitionLog := text_log |}.

(** External binaries that leave nothing behind, and binaries of the text
    family that print one fixed line into every temp file. *)
Definition no_output : executor := λ _ d, d.

Definition tee_line (line : string) : executor := λ cmds d,
  foldl (λ acc cmd,
           match cmd with
           | TextCommand ti => write_file (ti_temp_file ti) line acc
           | LogCommand _ => acc
           end) d cmds.

Definition empty_disk : disk := Disk ∅ ∅ ∅.

(** A disk that holds nothing but the directory of line 265. *)
Definition scripts_disk : disk := Disk ∅ ∅ {[ scripts_dir ]}.

(** A Task of the family that has a legacy file name, and a disk that holds
    its artifact under that legacy name only. *)
Definition sample_task : Task :=
  {| task_k := 4;
     raw_graph_name := "g1";
     graph_path := "/home/user/graphs/all/g1.graph";
     stream_buffer := "16384";
     max_pq_size := "131072";
     old_target_path := "/out/g1_4_16384.bin";
     fbs_target_path := "/out/g1_4_16384_131072.bin" |}.

Definition legacy_disk : disk :=
  Disk {[ "/out/g1_4_16384.bin"%string := Text "old log" ]} ∅ ∅.

(** A disk whose canonical artifact for [sample_task] holds a log of
    partition count 64, which no list of [SET_CONFIG] for [local_cc_set]
    contains, and one where it holds nothing. *)
Definition stale_log_disk : disk :=
  Disk {[ "/out/g1_4_16384_131072.bin"%string
            := Text "g1.graph 100 0 64 1500 2048 17" ]} ∅ ∅.


(** A disk whose canonical artifact for [sample_task] holds a complete log
    of partition count 8 for a graph of zero edges. *)
Definition zero_edges_disk : disk :=
  Disk {[ "/out/g1_4_16384_131072.bin"%string
            := Text "g1.graph 0 0 8 1500 2048 17" ]} ∅ ∅.

Section Samples.
#[local] Existing Instance reference_platform.

(** A table with rows for the partition counts 4, 8 and 32 of one graph,
    on the disk of a run of [alg] over [tuning_set]. *)
Definition merge_table : list csv_row :=
  [CsvRow "alg" "g" "0" "4" "1.0" "10" "5" "0.5" "1";
   CsvRow "alg" "g" "0" "8" "2.0" "11" "6" "0.6" "1";
   CsvRow "alg" "g" "0" "32" "3.0" "12" "7" "0.7" "1"].

Definition merge_disk : disk :=
  Disk ∅ {[ cuttana_csv_path "tuning_set" "natural" "alg" 4 := merge_table ]}
       ∅.

(** The state of a scan that finds a usable temp file for the pair
    (g, 16), one that finds a temp file of white space, and the Task of
    that pair. *)
Definition adoptable_scan : scan :=
  Scan (Disk {[ temp_result_path "/tmp/alg" "g" 16 := Text "1.5 20 7 0.1" ]}
             ∅ ∅) [] [].

Definition blank_scan : scan :=
  Scan (Disk {[ temp_result_path "/tmp/alg" "g" 16 := Text "  " ]} ∅ ∅)
       [] [].

Definition sample_info : task_info :=
  {| ti_graph_name := "g"; ti_k := 16;
     ti_temp_file := temp_result_path "/tmp/alg" "g" 16 |}.

(** A table one of whose lines has a partition count that is no integer. *)
Definition bad_count_disk : disk :=
  Disk ∅ {[ cuttana_csv_path "tuning_set" "natural" "alg" 4
              := [CsvRow "alg" "g" "0" "four" "1.0" "10" "5" "0.5" "1"] ]}
       ∅.
End Samples.

(** ** Further functions of the sources *)

(** Iterating over a text file: its lines, each with its newline, the last
    one possibly without. *)
Fixpoint file_lines (s : string) : list string :=
  match s with
  | EmptyString => []
  | String c s' =>
      if Ascii.eqb c "010"%char then String c EmptyString :: file_lines s'
      else
        match file_lines s' with
        | [] => [String c EmptyString]
        | l :: ls => String c l :: ls
        end
  end.

(** [[line.strip() for line in lines if line.strip()]] *)
Definition stripped_lines (lines : list string) : list string :=
  filter (λ l : string, l ≠ EmptyString) (strip <$> lines).

(** utils.read_graph_set: [None] is [sys.exit(1)] for a missing file, or the
    exception of a file that cannot be read. *)
Definition graph_set_path `{Platform} (set_name : string) : string :=
  path_join (path_join (expanduser "~/scripts/exp/") "graph_sets") set_name.

Definition read_graph_set `{Platform} (set_name : string) (d : disk)
    : option (list string) :=
  match files d !! graph_set_path set_name with
  | Some (Text text) => Some (stripped_lines (file_lines text))
  | Some Unreadable => None
  | None => None
  end.

(** What reading in text mode makes of the characters written: a carriage
    return, alone or before a line feed, is read as a line feed. *)
Fixpoint universal_newlines (s : string) : string :=
  match s with
  | EmptyString => EmptyString
  | String c s' =>
      if Ascii.eqb c "013"%char then
        match s' with
        | String c' s'' =>
            if Ascii.eqb c' "010"%char
            then String "010"%char (universal_newlines s'')
            else String "010"%char (universal_newlines s')
        | EmptyString => String "010"%char EmptyString
        end
      else String c (universal_newlines s')
  end.

(** [_create_command_file]: one command per line. *)
Fixpoint command_file_text (commands : list string) : string :=
  match commands with
  | [] => EmptyString
  | cmd :: rest => cmd +:+ String "010"%char (command_file_text rest)
  end.

(** [_run_parallel_commands], lines 109-112: the lines read back from the
    command file. *)
Definition command_lines (commands : list string) : list string :=
  stripped_lines (file_lines (universal_newlines (command_file_text commands))).

(** [_run_parallel_commands]: the argument vector handed to [subprocess.run],
    [None] when no process is started. *)
Definition parallel_cmd (max_jobs : Z) (commands : list string)
    : option (list string) :=
  match commands with
  | [] => None
  | _ :: _ =>
      Some (["parallel"; "--jobs=" +:+ pretty max_jobs; "--line-buffer";
             "--tag"; "--halt"; "never"; ":::"]%string
              ++ command_lines commands)
  end.

(** [_run_cuttana_parallel], lines 375-391: the arguments made of the
    parameter and hyperparameter dictionaries, in the order of their items. *)
Definition cuttana_param_args (param_dict : list (string * string))
    : list string :=
  flat_map (λ '(param_name, param_value),
              if negb (String.eqb param_value EmptyString)
              then ["-" +:+ param_name; param_value]
              else ["-" +:+ param_name])
           param_dict.

Definition cuttana_special_case (set_name raw : string) : bool :=
  str_in set_name ["konect_cc_set"; "konect_cc_set_light"]%string
  && str_in raw ["twitter-konect"; "twitter-konect_r1"]%string.

Definition cuttana_hyper_args (set_name raw : string)
    (hyperparam_dict : list (string * string)) : list string :=
  flat_map (λ '(hyperparam_name, hyperparam_value),
              if cuttana_special_case set_name raw then
                if String.eqb hyperparam_name "subp"
                   && String.eqb hyperparam_value "4096"
                then ["-" +:+ hyperparam_name; "256"%string]
                else if String.eqb hyperparam_name "dmax"
                then ["-" +:+ hyperparam_name; "100"%string]
                else []
              else ["-" +:+ hyperparam_name; hyperparam_value])
           hyperparam_dict.

(** [base_command] of lines 366-391. *)
Definition cuttana_base_command `{Platform} (program set_name raw : string)
    (k_v : Z) (param_dict hyperparam_dict : list (string * string))
    : list string :=
  [program; "-d"%string;
   expanduser (path_join BASE_DIR_GRAPHS (raw +:+ ".cut"));
   "-p"%string; pretty k_v]
    ++ cuttana_param_args param_dict
    ++ cuttana_hyper_args set_name raw hyperparam_dict.

(** utils.get_algo_name_new.  A dictionary is the list of its items, whose
    keys are distinct; [get_abbr] is a parameter, [None] where it raises.
    The result is [None] for an exception, [Some None] for [return None]. *)
Fixpoint hyper_parts (get_abbr : string → option string)
    (hyp_params : list (string * string)) (param_values : list string)
    : option (list string) :=
  match hyp_params, param_values with
  | [], _ => Some []
  | (_, prefix) :: hs, value :: vs =>
      a ← get_abbr value;
      rest ← hyper_parts get_abbr hs vs;
      Some ((prefix +:+ a) :: rest)
  | _ :: _, [] => None
  end.

Fixpoint param_parts (get_abbr : string → option string)
    (hyp_param_names : list string) (param_dict : list (string * string))
    : option (list string) :=
  match param_dict with
  | [] => Some []
  | (param_name, param_value) :: ps =>
      if str_in param_name hyp_param_names
      then param_parts get_abbr hyp_param_names ps
      else
        part ← (if negb (String.eqb param_value EmptyString)
                then a ← get_abbr param_value; Some (param_name +:+ a)
                else Some param_name);
        rest ← param_parts get_abbr hyp_param_names ps;
        Some (part :: rest)
  end.

Definition get_algo_name_new (get_abbr : string → option string)
    (algo conf : string) (hyp_params param_dict : list (string * string))
    : option (option string) :=
  let param_values := split conf in
  let hyp_param_names := hyp_params.*1 in
  if (length param_values <? length hyp_param_names)%nat then Some None
  else
    parts ← hyper_parts get_abbr hyp_params param_values;
    more ← param_parts get_abbr hyp_param_names param_dict;
    Some (Some (algo +:+ "_" +:+ String.concat "_" (parts ++ more))).

(** [dict(zip(names, values))]: a later item replaces an earlier one of the
    same key. *)
Definition dict_zip (names values : list string) : gmap string string :=
  foldl (λ m kv, <[kv.1 := kv.2]> m) ∅ (zip names values).

(** run_exp_for_ordering_and_set, lines 101-113: the calls of [runner.run]
    made for the entries of [to_run], in order, when each call returns, and
    whether the loop came to its end ([false] when [get_algo_name_new]
    raised). *)
Record invocation := Invocation {
  inv_alg_name : string;
  inv_hyperparam_dict : gmap string string
}.

Fixpoint configuration_runs (get_abbr : string → option string)
    (algo : string) (hyp_params param_dict : list (string * string))
    (to_run : list string) : list invocation * bool :=
  match to_run with
  | [] => ([], true)
  | conf :: rest =>
      match get_algo_name_new get_abbr algo conf hyp_params param_dict with
      | None => ([], false)
      | Some None => configuration_runs get_abbr algo hyp_params param_dict rest
      | Some (Some name) =>
          let '(runs, finished) :=
            configuration_runs get_abbr algo hyp_params param_dict rest in
          (Invocation name (dict_zip (hyp_params.*1) (split conf)) :: runs,
           finished)
      end
  end.

(** Whether a string has a line feed or a carriage return in it. *)
Fixpoint has_line_break (s : string) : bool :=
  match s with
  | EmptyString => false
  | String c s' =>
      Ascii.eqb c "010"%char || Ascii.eqb c "013"%char || has_line_break s'
  end.


(** A row whose values are all text, as every row of the text family is. *)
Definition textual `{Platform} (r : result) : Prop :=
  (∃ s, seed r = PStr s) ∧ (∃ s, runtime r = PStr s)
  ∧ (∃ s, memory r = PStr s) ∧ (∃ s, edge_cut r = PStr s)
  ∧ (∃ s, solution_quality r = PStr s).

(** The artifact paths of a list of Tasks. *)
Definition target_paths (ts : list Task) : list string :=
  ts ≫= λ t, [fbs_target_path t; old_target_path t].

(** * Properties *)

Section Properties.
Context `{Platform}.

(** ** The success flag *)

Lemma pretty_Z_zero (n : Z) : pretty n = "0"%string ↔ n = 0.
Proof.
  split; [|by intros ->].
  intros Hn. by apply (inj (pretty : Z → string)).
Qed.

Lemma flag_of_text (s : string) :
  (if negb (String.eqb s "0") then "1" else "0")%string = "1"%string
  ↔ s ≠ "0"%string.
Proof. destruct (String.eqb_spec s "0"); simpl; split; congruence. Qed.

Lemma extract_temp_appends alg ti d rows :
  extract_temp alg ti (d, rows)
  = (match parse_temp_line alg ti d with
     | Some _ => d
     | None => write_file (ti_temp_file ti) "0 0 0 0" d
     end,
     rows ++ [temp_row alg ti d]).
Proof.
  unfold extract_temp, temp_row.
  by destruct (parse_temp_line alg ti d).
Qed.

Lemma parse_temp_line_flag alg ti d row :
  parse_temp_line alg ti d = Some row →
  success row = "1"%string ↔ py_str (edge_cut row) ≠ "0"%string.
Proof.
  unfold parse_temp_line. intros Hrow.
  destruct (files d !! ti_temp_file ti) as [[text|]|]; [|done..].
  destruct (negb _); [|done].
  destruct (split _) as [|? [|? [|? [|? ?]]]]; simplify_eq.
  apply flag_of_text.
Qed.

(** C1, as the code has it: the success flag of a record built by
    [produce_result] is "1" exactly when the text of its edge-cut,
    [str(edge_cut)], is not the one-character string "0", and "0"
    otherwise; for an integer edge-cut (the structured-log extractor) that
    is exactly when the edge-cut is not zero; the row the text-family
    extraction appends for a Task obeys the same rule. *)
Theorem success_flag_is_textual alg g s kv r m e q n ti d :
  (success (produce_result alg g s kv r m e q) = "1"%string
     ↔ py_str e ≠ "0"%string)
  ∧ (success (produce_result alg g s kv r m e q) = "0"%string
     ↔ py_str e = "0"%string)
  ∧ (success (produce_result alg g s kv r m (PInt n) q) = "1"%string
     ↔ n ≠ 0)
  ∧ (success (temp_row alg ti d) = "1"%string
     ↔ py_str (edge_cut (temp_row alg ti d)) ≠ "0"%string).
Proof.
  split_and!.
  - apply flag_of_text.
  - simpl. destruct (String.eqb_spec (py_str e) "0"); simpl;
      split; congruence.
  - simpl. rewrite flag_of_text. by rewrite pretty_Z_zero.
  - unfold temp_row.
    destruct (parse_temp_line alg ti d) as [row|] eqn:Hrow; simpl.
    + by apply (parse_temp_line_flag alg ti d).
    + split; [discriminate | congruence].
Qed.

(** ** The decision for one Task of the structured-log family *)

Lemma files_remove_file p d : files (remove_file p d) = delete p (files d).
Proof. done. Qed.

Lemma exists_file_true d p : exists_file d p = true ↔ is_Some (files d !! p).
Proof. unfold exists_file. by rewrite bool_decide_eq_true. Qed.

Lemma exists_file_false d p : exists_file d p = false ↔ files d !! p = None.
Proof.
  unfold exists_file. rewrite bool_decide_eq_false.
  by rewrite eq_None_not_Some.
Qed.

(** C2: the decision for a Task follows the policy in order.  With
    overwrite enabled the canonical and the legacy artifact are gone
    afterwards, every other file is as before, and the decision is EXECUTE.
    With overwrite disabled: an existing canonical artifact gives SKIP and
    the disk is untouched; otherwise an existing legacy artifact is moved,
    with its content, to the canonical name and the decision is SKIP;
    otherwise the decision is EXECUTE and the disk is untouched. *)
Theorem decide_task_policy (overwrite : bool) (t : Task) (d : disk) :
  let canonical := fbs_target_path t in
  let legacy := old_target_path t in
  let d' := (decide_task overwrite t d).1 in
  let dec := (decide_task overwrite t d).2 in
  (overwrite = true →
     dec = EXECUTE
     ∧ files d' !! canonical = None ∧ files d' !! legacy = None
     ∧ ∀ p, p ≠ canonical → p ≠ legacy → files d' !! p = files d !! p)
  ∧ (overwrite = false → is_Some (files d !! canonical) →
     dec = SKIP ∧ d' = d)
  ∧ (overwrite = false → files d !! canonical = None →
     ∀ f, files d !! legacy = Some f →
     dec = SKIP
     ∧ files d' !! canonical = Some f ∧ files d' !! legacy = None
     ∧ ∀ p, p ≠ canonical → p ≠ legacy → files d' !! p = files d !! p)
  ∧ (overwrite = false → files d !! canonical = None →
     files d !! legacy = None →
     dec = EXECUTE ∧ d' = d)
  ∧ tables d' = tables d ∧ dirs d' = dirs d.
Proof.
  intros canonical legacy d' dec. subst d' dec. unfold decide_task.
  fold canonical legacy.
  split_and!.
  - intros ->. simpl.
    assert (∀ p e, files (if exists_file e p then remove_file p e else e)
                   = delete p (files e)) as Hrm.
    { intros p e. destruct (exists_file e p) eqn:Hp; [done|].
      apply exists_file_false in Hp. by rewrite delete_id. }
    rewrite !Hrm. split_and!; [done|..].
    + destruct (decide (legacy = canonical)) as [->|Hne].
      * by rewrite lookup_delete_eq.
      * by rewrite lookup_delete_ne, lookup_delete_eq.
    + by rewrite lookup_delete_eq.
    + intros p Hc Hl. by rewrite !lookup_delete_ne.
  - intros -> Hc. apply exists_file_true in Hc. by rewrite Hc.
  - intros -> Hc f Hl.
    assert (legacy ≠ canonical) as Hne by congruence.
    pose proof Hc as Hc'. apply exists_file_false in Hc'. rewrite Hc'.
    assert (exists_file d legacy = true) as ->
      by (apply exists_file_true; eauto).
    simpl. unfold rename_file. rewrite Hl. simpl. split_and!; [done|..].
    + by rewrite lookup_insert_eq.
    + by rewrite lookup_insert_ne, lookup_delete_eq.
    + intros p Hpc Hpl. by rewrite lookup_insert_ne, lookup_delete_ne.
  - intros -> Hc Hl. apply exists_file_false in Hc, Hl. by rewrite Hc, Hl.
  - destruct overwrite; simpl.
    + by destruct (exists_file d canonical), (exists_file _ legacy).
    + destruct (exists_file d canonical); [done|].
      destruct (exists_file d legacy); [|done].
      unfold rename_file. by destruct (files d !! legacy).
  - destruct overwrite; simpl.
    + by destruct (exists_file d canonical), (exists_file _ legacy).
    + destruct (exists_file d canonical); [done|].
      destruct (exists_file d legacy); [|done].
      unfold rename_file. by destruct (files d !! legacy).
Qed.

(** ** The order of Task Expansion *)

Lemma get_graph_name_suffix g ordering :
  get_graph_name g ordering = (λ sfx, g +:+ sfx) <$> ordering_suffix ordering.
Proof.
  assert (g +:+ EmptyString = g) as Hnil.
  { induction g as [|c g IH]; [done|].
    change (String c (g +:+ EmptyString) = String c g). by rewrite IH. }
  unfold get_graph_name, ordering_suffix.
  destruct (String.eqb ordering "natural"); [simpl; by rewrite Hnil|].
  by repeat (destruct (String.eqb ordering _); [done|]).
Qed.

Lemma make_task_key heistream folder ordering hyper sfx buffer kv g :
  ordering_suffix ordering = Some sfx →
  task_stream_buffer heistream hyper
    (default "131072"%string (hyper !! "max_pq_size"%string)) = Some buffer →
  ∃ t, make_task heistream folder ordering hyper kv g = Some t
       ∧ task_key t = (kv, g +:+ sfx).
Proof.
  intros Hsfx Hbuf. unfold make_task.
  rewrite get_graph_name_suffix, Hsfx. simpl. rewrite Hbuf. simpl.
  eexists. split; [done|]. done.
Qed.

Lemma expand_graphs_keys heistream folder ordering hyper sfx buffer kv gs :
  ordering_suffix ordering = Some sfx →
  task_stream_buffer heistream hyper
    (default "131072"%string (hyper !! "max_pq_size"%string)) = Some buffer →
  ∃ ts, expand_graphs heistream folder ordering hyper kv gs = Some ts
        ∧ task_key <$> ts = (λ g, (kv, g +:+ sfx)) <$> gs.
Proof.
  intros Hsfx Hbuf. induction gs as [|g gs (ts & Hts & Hkeys)]; simpl.
  { by exists []. }
  destruct (make_task_key heistream folder ordering hyper sfx buffer kv g)
    as (t & -> & Hkey); [done..|].
  simpl. rewrite Hts. simpl. exists (t :: ts). split; [done|].
  rewrite !fmap_cons. by rewrite Hkey, Hkeys.
Qed.

Lemma expand_tasks_keys heistream folder ordering hyper sfx buffer v_k gs :
  ordering_suffix ordering = Some sfx →
  task_stream_buffer heistream hyper
    (default "131072"%string (hyper !! "max_pq_size"%string)) = Some buffer →
  ∃ ts, expand_tasks heistream folder ordering hyper v_k gs = Some ts
        ∧ task_key <$> ts = k_major v_k ((λ g, g +:+ sfx) <$> gs).
Proof.
  intros Hsfx Hbuf. induction v_k as [|kv ks (ts & Hts & Hkeys)]; simpl.
  { by exists []. }
  destruct (expand_graphs_keys heistream folder ordering hyper sfx buffer
              kv gs) as (row & -> & Hrow); [done..|].
  simpl. rewrite Hts. simpl. exists (row ++ ts). split; [done|].
  unfold k_major in *. rewrite fmap_cons, concat_cons, fmap_app, Hrow, Hkeys.
  f_equal. by rewrite <-list_fmap_compose.
Qed.

Lemma check_temp_file_tasks alg raw kv p st :
  sc_tasks (check_temp_file alg raw kv p st).1 = sc_tasks st.
Proof.
  unfold check_temp_file.
  destruct (files (sc_disk st) !! p) as [[text|]|]; [|done..].
  destruct (negb _); [|done].
  by destruct (split _) as [|? [|? [|? [|? ?]]]].
Qed.

Lemma visit_pair_tasks overwrite alg dir raw kv st :
  task_pair <$> sc_tasks (visit_pair overwrite alg dir raw kv st).1
  = (task_pair <$> sc_tasks st)
      ++ executed [(raw, kv, (visit_pair overwrite alg dir raw kv st).2)].
Proof.
  unfold visit_pair.
  destruct (negb overwrite && in_rows (sc_rows st) raw kv).
  { simpl. by rewrite app_nil_r. }
  destruct (exists_file (sc_disk st) _ && negb overwrite).
  - pose proof (check_temp_file_tasks alg raw kv
                  (temp_result_path dir raw kv) st) as Htasks.
    destruct (check_temp_file _ _ _ _ _) as [st1 [|]]; simpl in *.
    + rewrite fmap_app, Htasks. done.
    + rewrite Htasks. by rewrite app_nil_r.
  - simpl. by rewrite fmap_app.
Qed.

Lemma scan_ks_order overwrite alg dir ordering g sfx v_k st :
  ordering_suffix ordering = Some sfx →
  ∃ st' decs,
    scan_ks overwrite alg dir ordering g v_k st = Some (st', decs)
    ∧ decs.*1 = (λ kv, (g +:+ sfx, kv)) <$> v_k
    ∧ task_pair <$> sc_tasks st'
      = (task_pair <$> sc_tasks st) ++ executed decs.
Proof.
  intros Hsfx. revert st. induction v_k as [|kv ks IH]; intros st; simpl.
  { exists st, []. by rewrite app_nil_r. }
  rewrite get_graph_name_suffix, Hsfx. simpl.
  pose proof (visit_pair_tasks overwrite alg dir (g +:+ sfx) kv st) as Hv.
  destruct (visit_pair overwrite alg dir (g +:+ sfx) kv st) as [st1 dec].
  destruct (IH st1) as (st2 & decs & -> & Hdecs & Htasks). simpl in *.
  exists st2, ((g +:+ sfx, kv, dec) :: decs). split_and!; [done|..].
  - rewrite !fmap_cons. by rewrite Hdecs.
  - rewrite Htasks, Hv, <-app_assoc. f_equal.
    unfold executed. rewrite !filter_cons. simpl.
    by destruct (decide (dec = EXECUTE)).
Qed.

Lemma scan_graphs_order overwrite alg dir ordering sfx gs v_k st :
  ordering_suffix ordering = Some sfx →
  ∃ st' decs,
    scan_graphs overwrite alg dir ordering gs v_k st = Some (st', decs)
    ∧ decs.*1 = graph_major ((λ g, g +:+ sfx) <$> gs) v_k
    ∧ task_pair <$> sc_tasks st'
      = (task_pair <$> sc_tasks st) ++ executed decs.
Proof.
  intros Hsfx. revert st. induction gs as [|g gs IH]; intros st; simpl.
  { exists st, []. by rewrite app_nil_r. }
  destruct (scan_ks_order overwrite alg dir ordering g sfx v_k st Hsfx)
    as (st1 & decs1 & -> & Hdecs1 & Htasks1). simpl.
  destruct (IH st1) as (st2 & decs2 & -> & Hdecs2 & Htasks2). simpl.
  exists st2, (decs1 ++ decs2). split_and!; [done|..].
  - unfold graph_major in *.
    by rewrite !fmap_cons, concat_cons, fmap_app, Hdecs1, Hdecs2.
  - rewrite Htasks2, Htasks1, <-app_assoc. f_equal.
    unfold executed. by rewrite filter_app, fmap_app.
Qed.

(** C3, as the code has it: Task Expansion of the structured-log family
    emits one Task per pair in k-major order (outer loop over the
    partition counts, inner loop over the graphs); the scan of the text
    family meets the pairs in graph-major order (outer loop over the
    graphs, inner loop over the partition counts) and batches the pairs it
    decides to execute in that order. *)
Theorem expansion_order heistream folder ordering hyper sfx buffer
    overwrite alg dir v_k gs st :
  ordering_suffix ordering = Some sfx →
  task_stream_buffer heistream hyper
    (default "131072"%string (hyper !! "max_pq_size"%string)) = Some buffer →
  (∃ ts, expand_tasks heistream folder ordering hyper v_k gs = Some ts
         ∧ task_key <$> ts = k_major v_k ((λ g, g +:+ sfx) <$> gs))
  ∧ (∃ st' decs,
       scan_graphs overwrite alg dir ordering gs v_k st = Some (st', decs)
       ∧ decs.*1 = graph_major ((λ g, g +:+ sfx) <$> gs) v_k
       ∧ task_pair <$> sc_tasks st'
         = (task_pair <$> sc_tasks st) ++ executed decs).
Proof.
  intros Hsfx Hbuf. split.
  - by eapply expand_tasks_keys.
  - by apply scan_graphs_order.
Qed.

(** ** The temp-file check of the text family *)

Lemma lstrip_all_space s : all_space s = true → lstrip s = EmptyString.
Proof.
  induction s as [|c s IH]; simpl; [done|].
  intros [Hc Hs]%andb_true_iff. rewrite Hc. auto.
Qed.

Lemma strip_all_space s : all_space s = true → strip s = EmptyString.
Proof. intros Hs. unfold strip. by rewrite lstrip_all_space. Qed.

Lemma visit_pair_listed alg dir raw kv st :
  in_rows (sc_rows st) raw kv = true →
  visit_pair false alg dir raw kv st = (st, SKIP).
Proof. intros Hin. unfold visit_pair. by rewrite Hin. Qed.

Lemma visit_pair_adopts alg dir raw kv st text rt mem ec q rest :
  in_rows (sc_rows st) raw kv = false →
  files (sc_disk st) !! temp_result_path dir raw kv = Some (Text text) →
  split (strip text) = rt :: mem :: ec :: q :: rest →
  visit_pair false alg dir raw kv st
  = (Scan (sc_disk st)
          (sc_rows st ++ [produce_result alg raw (PStr "0") kv (PStr rt)
                            (PStr mem) (PStr ec) (PStr q)])
          (sc_tasks st),
     SKIP).
Proof.
  intros Hin Hfile Htokens. unfold visit_pair. rewrite Hin. simpl.
  assert (exists_file (sc_disk st) (temp_result_path dir raw kv) = true)
    as -> by (apply exists_file_true; eauto).
  simpl. unfold check_temp_file. rewrite Hfile.
  destruct (String.eqb_spec (strip text) EmptyString) as [Hempty|_].
  { by rewrite Hempty in Htokens. }
  simpl. by rewrite Htokens.
Qed.

Lemma visit_pair_rejects alg dir raw kv st text :
  in_rows (sc_rows st) raw kv = false →
  files (sc_disk st) !! temp_result_path dir raw kv = Some (Text text) →
  (length (split (strip text)) < 4)%nat →
  visit_pair false alg dir raw kv st
  = (Scan (remove_file (temp_result_path dir raw kv) (sc_disk st))
          (sc_rows st)
          (sc_tasks st
             ++ [{| ti_graph_name := raw; ti_k := kv;
                    ti_temp_file := temp_result_path dir raw kv |}]),
     EXECUTE).
Proof.
  intros Hin Hfile Hshort. unfold visit_pair. rewrite Hin. simpl.
  assert (exists_file (sc_disk st) (temp_result_path dir raw kv) = true)
    as -> by (apply exists_file_true; eauto).
  simpl. unfold check_temp_file. rewrite Hfile.
  destruct (negb _); [|done].
  destruct (split (strip text)) as [|? [|? [|? [|? ?]]]]; try done.
  simpl in Hshort. lia.
Qed.

(** C6: with overwrite disabled, a pair found in the pre-loaded table is
    skipped without looking at its temp file.  For a pair not found there
    whose temp file is present: when the stripped content has at least
    four white-space separated tokens, the first four are adopted as a
    completed row and the Task is skipped, the temp file staying in place;
    when it has fewer than four, and a content of white space only has
    none, the temp file is deleted and the Task is decided EXECUTE. *)
Theorem temp_file_check alg dir raw kv st text :
  let p := temp_result_path dir raw kv in
  (in_rows (sc_rows st) raw kv = true →
     visit_pair false alg dir raw kv st = (st, SKIP))
  ∧ (in_rows (sc_rows st) raw kv = false →
     files (sc_disk st) !! p = Some (Text text) →
     ∀ rt mem ec q rest,
       split (strip text) = rt :: mem :: ec :: q :: rest →
       visit_pair false alg dir raw kv st
       = (Scan (sc_disk st)
               (sc_rows st ++ [produce_result alg raw (PStr "0") kv
                                 (PStr rt) (PStr mem) (PStr ec) (PStr q)])
               (sc_tasks st),
          SKIP))
  ∧ (in_rows (sc_rows st) raw kv = false →
     files (sc_disk st) !! p = Some (Text text) →
     (length (split (strip text)) < 4)%nat →
     visit_pair false alg dir raw kv st
     = (Scan (remove_file p (sc_disk st)) (sc_rows st)
             (sc_tasks st ++ [{| ti_graph_name := raw; ti_k := kv;
                                 ti_temp_file := p |}]),
        EXECUTE)
     ∧ files (remove_file p (sc_disk st)) !! p = None)
  ∧ (all_space text = true → split (strip text) = []).
Proof.
  intros p. split_and!.
  - apply visit_pair_listed.
  - intros Hin Hfile rt mem ec q rest Htokens.
    by eapply visit_pair_adopts.
  - intros Hin Hfile Hshort. split.
    + by apply (visit_pair_rejects alg dir raw kv st text).
    + simpl. by rewrite lookup_delete_eq.
  - intros Hspace. by rewrite strip_all_space.
Qed.

(** ** Unusable output *)

Lemma int_in_true n ks : int_in n ks = true ↔ n ∈ ks.
Proof.
  unfold int_in. rewrite existsb_exists. split.
  - intros (x & Hx%list_elem_of_In & ->%Z.eqb_eq). done.
  - intros Hn. exists n. rewrite <-list_elem_of_In. by rewrite Z.eqb_refl.
Qed.





Lemma sort_insert_Permutation {A} (lt : A → A → bool) x l :
  sort_insert lt x l ≡ₚ x :: l.
Proof.
  induction l as [|y l IH]; simpl; [done|].
  destruct (lt y x); [|done]. rewrite IH. apply Permutation_swap.
Qed.

Lemma py_sort_Permutation {A} (lt : A → A → bool) l : py_sort lt l ≡ₚ l.
Proof.
  induction l as [|x l IH]; simpl; [done|].
  by rewrite sort_insert_Permutation, IH.
Qed.


(** C7: when the log of an artifact decodes far enough to give its
    partition count and that count is not in the configured list of the
    graph set, [parse_flatbuffer_file] returns no result, and the row
    [main] adds for the Task is the failed record built from the Task, not
    a row built from the artifact. *)
Theorem out_of_scope_log_is_discarded alg set_name d t buf log meta
    config set_cfg :
  files d !! fbs_target_path t = Some (Text buf) →
  GetRootAsPartitionLog buf = Some log →
  log_GraphMetadata log = Some meta →
  Filename meta ≠ Some None →
  log_PartitionConfiguration log = Some config →
  SET_CONFIG !! set_name = Some set_cfg →
  K config ∉ cfg_k set_cfg →
  parse_flatbuffer_file (fbs_target_path t) alg set_name d = Some None
  ∧ extract_log alg set_name d t
    = produce_failed_result alg (raw_graph_name t) (task_k t).
Proof.
  intros Hfile Hlog Hmeta Hname Hconfig Hset Hk.
  assert (parse_flatbuffer_file (fbs_target_path t) alg set_name d
          = Some None) as Hparse.
  { unfold parse_flatbuffer_file. rewrite Hfile, Hlog. simpl.
    rewrite Hmeta. simpl.
    destruct (Filename meta) as [[name|]|]; [|done|]; simpl;
      rewrite Hconfig; simpl; rewrite Hset; simpl;
      destruct (int_in (K config) (cfg_k set_cfg)) eqn:Hin; try done;
      by apply int_in_true in Hin. }
  split; [done|].
  unfold extract_log. rewrite Hparse. by destruct (exists_file _ _).
Qed.

(** ** A failed Task of the text family *)


(** ** Quick test *)

Lemma decide_tasks_dirs overwrite ts d :
  dirs (decide_tasks overwrite ts d).1 = dirs d.
Proof.
  revert d. induction ts as [|t ts IH]; intros d; [done|].
  cbn [decide_tasks].
  assert (dirs (decide_task overwrite t d).1 = dirs d) as Hone.
  { unfold decide_task. destruct overwrite.
    - by destruct (exists_file d (fbs_target_path t)),
        (exists_file _ (old_target_path t)).
    - destruct (exists_file d (fbs_target_path t)); [done|].
      destruct (exists_file d (old_target_path t)); [|done].
      unfold rename_file. by destruct (files d !! old_target_path t). }
  destruct (decide_task overwrite t d) as [d1 dec].
  specialize (IH d1). destruct (decide_tasks overwrite ts d1) as [d2 decs].
  cbn [fst] in *. congruence.
Qed.

Lemma convert_main_dirs tasklist alg set_name ordering max_cores d :
  dirs (convert_main tasklist alg set_name ordering max_cores d)
  = {[get_processed_output_dir set_name ordering max_cores]} ∪ dirs d.
Proof. unfold convert_main. by destruct (negb _). Qed.

Lemma chdir_Some p d : p ∈ dirs d → chdir p d = Some ().
Proof.
  intros Hp. unfold chdir, exists_dir. by rewrite bool_decide_eq_true_2.
Qed.

(** What a run that returns has computed. *)
Lemma algo_parallel_body_inv run_parallel_commands algo_type overwrite
    (quick_test : bool) set_name ordering hyper alg max_cores v_k gs d run :
  algo_parallel_body run_parallel_commands algo_type overwrite quick_test
    set_name ordering hyper alg max_cores v_k gs d = Some run →
  expand_tasks (is_heistream algo_type)
    (get_fbs_output_dir set_name ordering alg max_cores) ordering hyper
    (if quick_test then first_only v_k else v_k)
    (if quick_test then first_only gs else gs) = Some (lr_tasklist run)
  ∧ lr_decisions run
    = (decide_tasks overwrite (lr_tasklist run)
         (makedirs (get_fbs_output_dir set_name ordering alg max_cores)
                   d)).2
  ∧ scripts_dir ∈ dirs (lr_disk run).
Proof.
  unfold algo_parallel_body. intros Hrun.
  destruct (chdir (get_fbs_output_dir set_name ordering alg max_cores) _);
    [|done].
  cbn [mbind option_bind] in Hrun.
  destruct (expand_tasks _ _ _ _ _ _) as [ts|]; [|done].
  cbn [mbind option_bind] in Hrun.
  destruct (decide_tasks overwrite ts _) as [d1 decs] eqn:Hdecs.
  unfold chdir at 1 in Hrun. unfold exists_dir in Hrun.
  destruct (bool_decide_reflect
              (scripts_dir
               ∈ dirs (if quick_test
                       then submit run_parallel_commands
                              (LogCommand <$> to_execute decs) d1
                       else convert_main ts alg set_name ordering max_cores
                              (submit run_parallel_commands
                                 (LogCommand <$> to_execute decs) d1))))
    as [Hdir|]; [|done].
  cbn [mbind option_bind] in Hrun. injection Hrun as <-.
  cbn [lr_tasklist lr_decisions lr_disk]. by rewrite Hdecs.
Qed.

(** A run returns when the ordering is valid and the directory of line 265
    is there when the batch has come back. *)
Lemma algo_parallel_body_tasklist run_parallel_commands algo_type overwrite
    (quick_test : bool) set_name ordering hyper alg max_cores v_k gs d ts :
  expand_tasks (is_heistream algo_type)
    (get_fbs_output_dir set_name ordering alg max_cores) ordering hyper
    (if quick_test then first_only v_k else v_k)
    (if quick_test then first_only gs else gs) = Some ts →
  scripts_dir ∈ dirs d →
  (∀ cmds d', scripts_dir ∈ dirs d' →
              scripts_dir ∈ dirs (run_parallel_commands cmds d')) →
  ∃ run,
    algo_parallel_body run_parallel_commands algo_type overwrite quick_test
      set_name ordering hyper alg max_cores v_k gs d = Some run
    ∧ lr_tasklist run = ts
    ∧ lr_decisions run
      = (decide_tasks overwrite ts
           (makedirs (get_fbs_output_dir set_name ordering alg max_cores)
                     d)).2.
Proof.
  intros Hts Hdir Hexec. unfold algo_parallel_body.
  rewrite chdir_Some.
  2:{ cbn [dirs makedirs]. apply elem_of_union. left.
      by apply elem_of_singleton. }
  cbn [mbind option_bind]. rewrite Hts. cbn [mbind option_bind].
  pose proof (decide_tasks_dirs overwrite ts
                (makedirs (get_fbs_output_dir set_name ordering alg
                             max_cores) d)) as Hdirs.
  destruct (decide_tasks overwrite ts _) as [d1 decs]. cbn [fst snd] in *.
  assert (scripts_dir
          ∈ dirs (submit run_parallel_commands
                    (LogCommand <$> to_execute decs) d1)) as Hd2.
  { assert (scripts_dir ∈ dirs d1) as Hd1.
    { rewrite Hdirs. cbn [dirs makedirs]. apply elem_of_union. by right. }
    unfold submit. destruct (LogCommand <$> to_execute decs); [done|].
    by apply Hexec. }
  rewrite chdir_Some.
  2:{ destruct quick_test; [done|].
      rewrite convert_main_dirs. apply elem_of_union. by right. }
  cbn [mbind option_bind]. eauto.
Qed.

Lemma cuttana_parallel_body_decisions run_parallel_commands overwrite
    (quick_test : bool) set_name ordering alg max_cores v_k gs d run :
  cuttana_parallel_body run_parallel_commands overwrite quick_test set_name
    ordering alg max_cores v_k gs d = Some run →
  ∃ d1 rows st,
    open_table overwrite (if quick_test then first_only v_k else v_k)
      (cuttana_csv_path set_name ordering alg max_cores)
      (makedirs (get_processed_output_dir set_name ordering max_cores) d)
    = Some (d1, rows)
    ∧ scan_graphs overwrite alg
        (cuttana_temp_dir set_name ordering alg max_cores) ordering
        (if quick_test then first_only gs else gs)
        (if quick_test then first_only v_k else v_k)
        (Scan (makedirs (cuttana_temp_dir set_name ordering alg max_cores)
                        d1) rows [])
      = Some (st, tr_decisions run).
Proof.
  unfold cuttana_parallel_body. intros Hrun.
  destruct (open_table _ _ _ _) as [[d1 rows]|] eqn:Hopen; [|done].
  simpl in Hrun.
  destruct (scan_graphs _ _ _ _ _ _ _) as [[st decs]|] eqn:Hscan; [|done].
  simpl in Hrun. exists d1, rows, st. split; [done|]. rewrite Hscan.
  destruct (match sc_tasks st with [] => _ | _ :: _ => _ end) as [d3 rows3].
  destruct rows3; [|destruct (negb quick_test)]; by simplify_eq.
Qed.

(** C9: with quick_test requested, a graph set and a partition-count list
    of at least one element each are cut to their first elements: Task
    Expansion of the structured-log family gives exactly one Task, the one
    of the first partition count and the first graph; every run that
    returns has that Task as its task list and has taken one decision, and
    the run does return when the directory of line 265 is there and the
    external commands leave it in place.  The scan of the text family meets
    exactly that one pair; [main] itself starts no run for an algorithm of
    the text family in quick-test mode. *)
Theorem quick_test_single_task run_parallel_commands algo_type overwrite
    set_name ordering hyper alg max_cores sfx buffer kv ks g gs d :
  ordering_suffix ordering = Some sfx →
  task_stream_buffer (is_heistream algo_type) hyper
    (default "131072"%string (hyper !! "max_pq_size"%string)) = Some buffer →
  (∃ t,
     task_key t = (kv, g +:+ sfx)
     ∧ expand_tasks (is_heistream algo_type)
         (get_fbs_output_dir set_name ordering alg max_cores) ordering hyper
         (first_only (kv :: ks)) (first_only (g :: gs)) = Some [t]
     ∧ (∀ run,
          algo_parallel_body run_parallel_commands algo_type overwrite true
            set_name ordering hyper alg max_cores (kv :: ks) (g :: gs) d
          = Some run →
          lr_tasklist run = [t] ∧ length (lr_decisions run) = 1%nat)
     ∧ (scripts_dir ∈ dirs d →
        (∀ cmds d', scripts_dir ∈ dirs d' →
                    scripts_dir ∈ dirs (run_parallel_commands cmds d')) →
        ∃ run,
          algo_parallel_body run_parallel_commands algo_type overwrite true
            set_name ordering hyper alg max_cores (kv :: ks) (g :: gs) d
          = Some run))
  ∧ (∀ run,
       cuttana_parallel_body run_parallel_commands overwrite true set_name
         ordering alg max_cores (kv :: ks) (g :: gs) d = Some run →
       ∃ dec, tr_decisions run = [(g +:+ sfx, kv, dec)])
  ∧ (∀ dir st, ∃ st' dec,
       scan_graphs overwrite alg dir ordering (first_only (g :: gs))
         (first_only (kv :: ks)) st
       = Some (st', [(g +:+ sfx, kv, dec)]))
  ∧ (∀ algo, startswith "cuttana" algo = true →
       main_runs_configuration true algo = false).
Proof.
  intros Hsfx Hbuf.
  assert (∀ dir st, ∃ st' dec,
            scan_graphs overwrite alg dir ordering [g] [kv] st
            = Some (st', [(g +:+ sfx, kv, dec)])) as Hscan.
  { intros dir st.
    destruct (scan_graphs_order overwrite alg dir ordering sfx [g] [kv] st
                Hsfx) as (st' & decs & Hrun & Hdecs & _).
    unfold graph_major in Hdecs. simpl in Hdecs.
    destruct decs as [|[[raw kv'] dec] [|? ?]]; simplify_eq/=. eauto. }
  split_and!.
  - destruct (expand_tasks_keys (is_heistream algo_type)
                (get_fbs_output_dir set_name ordering alg max_cores)
                ordering hyper sfx buffer [kv] [g] Hsfx Hbuf)
      as (ts & Hts & Hkeys).
    unfold k_major in Hkeys. simpl in Hkeys.
    destruct ts as [|t [|? ?]]; [by simplify_eq/=| |by simplify_eq/=].
    exists t. split_and!; [clear Hts; by simplify_eq/=|done| |].
    + intros run Hrun.
      apply algo_parallel_body_inv in Hrun as (Hexp & Hdecs & _).
      change (first_only (kv :: ks)) with [kv] in Hexp.
      change (first_only (g :: gs)) with [g] in Hexp.
      rewrite Hts in Hexp. injection Hexp as Hlist.
      rewrite Hdecs, <-Hlist. split; [done|]. cbn [decide_tasks].
      by destruct (decide_task overwrite t _) as [d1 dec].
    + intros Hdir Hexec.
      destruct (algo_parallel_body_tasklist run_parallel_commands algo_type
                  overwrite true set_name ordering hyper alg max_cores
                  (kv :: ks) (g :: gs) d [t]) as (run & Hrun & _);
        [done..|].
      by exists run.
  - intros run Hrun.
    apply cuttana_parallel_body_decisions in Hrun
      as (d1 & rows & st & _ & Hrun).
    destruct (Hscan (cuttana_temp_dir set_name ordering alg max_cores)
                (Scan (makedirs (cuttana_temp_dir set_name ordering alg
                                   max_cores) d1) rows []))
      as (st' & dec & Hone).
    change (first_only (g :: gs)) with [g] in Hrun.
    change (first_only (kv :: ks)) with [kv] in Hrun.
    rewrite Hone in Hrun. simplify_eq. eauto.
  - intros dir st. apply Hscan.
  - intros algo Halgo. unfold main_runs_configuration. by rewrite Halgo.
Qed.

(** ** The scan of the text family as one loop over the pairs *)

Lemma scan_ks_flat overwrite alg dir ordering sfx g v_k st :
  ordering_suffix ordering = Some sfx →
  scan_ks overwrite alg dir ordering g v_k st
  = Some (visit_all overwrite alg dir ((λ kv, (g +:+ sfx, kv)) <$> v_k) st).
Proof.
  intros Hsfx. revert st. induction v_k as [|kv ks IH]; intros st; [done|].
  cbn [scan_ks fmap list_fmap visit_all].
  rewrite get_graph_name_suffix, Hsfx. simpl.
  destruct (visit_pair overwrite alg dir (g +:+ sfx) kv st) as [st1 dec].
  rewrite IH. simpl.
  by destruct (visit_all overwrite alg dir _ st1).
Qed.

Lemma visit_all_app overwrite alg dir ps qs st :
  visit_all overwrite alg dir (ps ++ qs) st
  = let '(st1, decs1) := visit_all overwrite alg dir ps st in
    let '(st2, decs2) := visit_all overwrite alg dir qs st1 in
    (st2, decs1 ++ decs2).
Proof.
  revert st. induction ps as [|[raw kv] ps IH]; intros st; simpl.
  { by destruct (visit_all overwrite alg dir qs st). }
  destruct (visit_pair overwrite alg dir raw kv st) as [st1 dec].
  rewrite IH.
  destruct (visit_all overwrite alg dir ps st1) as [st2 decs1].
  by destruct (visit_all overwrite alg dir qs st2).
Qed.

Lemma scan_graphs_flat overwrite alg dir ordering sfx gs v_k st :
  ordering_suffix ordering = Some sfx →
  scan_graphs overwrite alg dir ordering gs v_k st
  = Some (visit_all overwrite alg dir
            (graph_major ((λ g, g +:+ sfx) <$> gs) v_k) st).
Proof.
  intros Hsfx. revert st. induction gs as [|g gs IH]; intros st; [done|].
  cbn [scan_graphs]. rewrite (scan_ks_flat _ _ _ _ sfx) by done.
  unfold graph_major in *. rewrite !fmap_cons, concat_cons, visit_all_app.
  simpl. destruct (visit_all overwrite alg dir _ st) as [st1 decs1].
  rewrite IH. simpl.
  by destruct (visit_all overwrite alg dir _ st1).
Qed.

Lemma in_rows_true rows raw kv :
  in_rows rows raw kv = true ↔ (raw, kv) ∈ row_key <$> rows.
Proof.
  unfold in_rows. rewrite existsb_exists, list_elem_of_fmap. split.
  - intros (r & Hr%list_elem_of_In & Hkey).
    apply andb_true_iff in Hkey as [Hg%String.eqb_eq Hk%Z.eqb_eq].
    exists r. split; [|done]. unfold row_key. by rewrite Hg, Hk.
  - intros (r & Hkey & Hr). exists r. rewrite <-list_elem_of_In.
    split; [done|]. unfold row_key in Hkey. simplify_eq.
    by rewrite String.eqb_refl, Z.eqb_refl.
Qed.

Lemma in_rows_false rows raw kv :
  in_rows rows raw kv = false ↔ (raw, kv) ∉ row_key <$> rows.
Proof. rewrite <-in_rows_true. by destruct (in_rows rows raw kv). Qed.

Lemma check_temp_file_cases alg raw kv p st :
  let res := check_temp_file alg raw kv p st in
  tables (sc_disk res.1) = tables (sc_disk st)
  ∧ sc_tasks res.1 = sc_tasks st
  ∧ ((res.2 = SKIP
      ∧ ∃ row, sc_rows res.1 = sc_rows st ++ [row]
               ∧ row_key row = (raw, kv))
     ∨ (res.2 = EXECUTE ∧ sc_rows res.1 = sc_rows st)).
Proof.
  unfold check_temp_file.
  destruct (files (sc_disk st) !! p) as [[text|]|];
    [|by (split_and!; [done..|right])..].
  destruct (negb _); [|by (split_and!; [done..|right])].
  destruct (split _) as [|rt [|mem [|ec [|q rest]]]];
    try by (split_and!; [done..|right]).
  split_and!; [done..|]. left. split; [done|].
  eexists. split; [reflexivity|done].
Qed.

(** What one visit with overwrite disabled does to the rows and to the
    batch: nothing for a listed pair; otherwise either one adopted row or
    one batched Task, both for the visited pair. *)
Lemma visit_pair_cases alg dir raw kv st :
  let res := visit_pair false alg dir raw kv st in
  tables (sc_disk res.1) = tables (sc_disk st)
  ∧ ((in_rows (sc_rows st) raw kv = true ∧ res = (st, SKIP))
     ∨ (in_rows (sc_rows st) raw kv = false ∧ res.2 = SKIP
        ∧ sc_tasks res.1 = sc_tasks st
        ∧ ∃ row, sc_rows res.1 = sc_rows st ++ [row]
                 ∧ row_key row = (raw, kv))
     ∨ (in_rows (sc_rows st) raw kv = false ∧ res.2 = EXECUTE
        ∧ sc_rows res.1 = sc_rows st
        ∧ ∃ ti, sc_tasks res.1 = sc_tasks st ++ [ti]
                ∧ task_pair ti = (raw, kv))).
Proof.
  unfold visit_pair. generalize (temp_result_path dir raw kv). intros p.
  destruct (in_rows (sc_rows st) raw kv) eqn:Hin; cbn [negb andb].
  { split; [done|]. by left. }
  destruct (exists_file (sc_disk st) p); cbn [negb andb].
  - pose proof (check_temp_file_cases alg raw kv p st) as Hcheck.
    cbv zeta in Hcheck.
    destruct (check_temp_file alg raw kv p st) as [st1 dec].
    cbn [fst snd] in Hcheck.
    destruct Hcheck as (Htab & Htasks & [[-> Hrow] | [-> Hrows]]);
      cbn [fst snd sc_disk sc_rows sc_tasks].
    + split; [done|]. right. left. done.
    + split; [done|]. right. right. split_and!; [done..|].
      eexists. rewrite Htasks. split; [reflexivity|done].
  - cbn [fst snd sc_disk sc_rows sc_tasks]. split; [done|].
    right. right. split_and!; [done..|].
    eexists. split; [reflexivity|done].
Qed.

Ltac solve_elem :=
  rewrite ?fmap_app, ?fmap_cons, ?elem_of_app, ?elem_of_cons, ?elem_of_nil
    in *;
  tauto.

(** What a whole scan with overwrite disabled does: it appends adopted
    rows and batched Tasks, each for a visited pair that no earlier row
    covers; afterwards every visited pair is covered by a row or a batched
    Task; pairs visited once are covered once. *)
Lemma visit_all_spec alg dir pairs st :
  let res := visit_all false alg dir pairs st in
  tables (sc_disk res.1) = tables (sc_disk st)
  ∧ ∃ adopted batched,
      sc_rows res.1 = sc_rows st ++ adopted
      ∧ sc_tasks res.1 = sc_tasks st ++ batched
      ∧ (∀ q, q ∈ (row_key <$> adopted) ++ (task_pair <$> batched) →
           q ∈ pairs ∧ q ∉ row_key <$> sc_rows st)
      ∧ (∀ q, q ∈ pairs →
           q ∈ (row_key <$> sc_rows st) ++ (row_key <$> adopted)
               ++ (task_pair <$> batched))
      ∧ (NoDup pairs →
           NoDup ((row_key <$> adopted) ++ (task_pair <$> batched))).
Proof.
  cbv zeta. revert st.
  induction pairs as [|[raw kv] rest IH]; intros st.
  { simpl. split; [done|]. exists [], []. rewrite !app_nil_r.
    split_and!; [done..| | |].
    - intros q Hq. by apply elem_of_nil in Hq.
    - intros q Hq. by apply elem_of_nil in Hq.
    - intros _. apply NoDup_nil_2. }
  cbn [visit_all].
  pose proof (visit_pair_cases alg dir raw kv st) as Hvisit.
  cbv zeta in Hvisit.
  destruct (visit_pair false alg dir raw kv st) as [st1 dec].
  specialize (IH st1).
  destruct (visit_all false alg dir rest st1) as [st2 decs].
  cbn [fst snd] in *.
  destruct IH as (Htab2 & adopted & batched & Hrows & Htasks & Hnew & Hcov
                  & Hnodup).
  destruct Hvisit as (Htab1 & Hcases).
  split; [congruence|].
  destruct Hcases as [[Hin Heq] | [(Hin & _ & Htasks1 & row & Hrows1 & Hkey)
                                  | (Hin & _ & Hrows1 & ti & Htasks1 & Hkey)]].
  - simplify_eq. exists adopted, batched. split_and!; [done..| | |].
    + intros q Hq. destruct (Hnew q Hq). split; [by right|done].
    + intros q [->|Hq]%elem_of_cons; [|by apply Hcov].
      apply elem_of_app. left. by apply in_rows_true.
    + intros Hnd. apply NoDup_cons in Hnd as [_ Hnd]. by apply Hnodup.
  - apply in_rows_false in Hin.
    exists (row :: adopted), batched.
    rewrite Hrows, Hrows1, Htasks, Htasks1, <-app_assoc.
    split_and!; [done..| | |].
    + intros q. rewrite fmap_cons, Hkey. cbn [app].
      intros [->|Hq]%elem_of_cons; [split; [by left|done]|].
      destruct (Hnew q Hq) as [Hrest Hnot]. split; [by right|].
      intros Hold. apply Hnot. rewrite Hrows1, fmap_app.
      apply elem_of_app. by left.
    + intros q [->|Hq]%elem_of_cons.
      * rewrite fmap_cons, Hkey. solve_elem.
      * specialize (Hcov q Hq). rewrite Hrows1, fmap_app in Hcov.
        rewrite fmap_cons. cbn [fmap list_fmap] in Hcov.
        rewrite Hkey in Hcov. rewrite Hkey. solve_elem.
    + intros Hnd. apply NoDup_cons in Hnd as [Hfresh Hnd].
      rewrite fmap_cons, Hkey. cbn [app]. apply NoDup_cons. split.
      * intros Hq. by destruct (Hnew _ Hq).
      * by apply Hnodup.
  - apply in_rows_false in Hin.
    exists adopted, (ti :: batched).
    rewrite Hrows, Hrows1, Htasks, Htasks1, <-app_assoc.
    split_and!; [done..| | |].
    + intros q. rewrite fmap_cons, Hkey.
      intros Hq. apply elem_of_app in Hq as [Hq|[->|Hq]%elem_of_cons].
      * destruct (Hnew q) as [Hrest Hnot]; [solve_elem|].
        split; [by right|]. by rewrite <-Hrows1.
      * split; [by left|done].
      * destruct (Hnew q) as [Hrest Hnot]; [solve_elem|].
        split; [by right|]. by rewrite <-Hrows1.
    + intros q [->|Hq]%elem_of_cons.
      * rewrite fmap_cons, Hkey. solve_elem.
      * specialize (Hcov q Hq). rewrite Hrows1 in Hcov.
        rewrite fmap_cons. solve_elem.
    + intros Hnd. apply NoDup_cons in Hnd as [Hfresh Hnd].
      rewrite fmap_cons, Hkey.
      rewrite <-Permutation_middle. apply NoDup_cons. split.
      * intros Hq. by destruct (Hnew _ Hq).
      * by apply Hnodup.
Qed.

(** ** The order of the table *)

Section SortInsert.
Context {A : Type} (lt : A → A → bool) (le : A → A → Prop).
Hypothesis lt_le : ∀ a b, lt a b = true → le a b.
Hypothesis not_lt_le : ∀ a b, lt a b = false → le b a.

Lemma sort_insert_HdRel y x l :
  HdRel le y l → le y x → HdRel le y (sort_insert lt x l).
Proof.
  intros Hhd Hyx. destruct l as [|z l]; simpl.
  - by constructor.
  - destruct (lt z x); constructor; [|done].
    by inversion Hhd.
Qed.

Lemma sort_insert_Sorted x l :
  Sorted le l → Sorted le (sort_insert lt x l).
Proof.
  induction l as [|y l IH]; simpl; intros Hsorted.
  - by repeat constructor.
  - destruct (lt y x) eqn:Hyx.
    + inversion Hsorted; subst. constructor; [by apply IH|].
      apply sort_insert_HdRel; [done|]. by apply lt_le.
    + constructor; [done|]. constructor. by apply not_lt_le.
Qed.

Lemma py_sort_Sorted l : Sorted le (py_sort lt l).
Proof.
  induction l as [|x l IH]; simpl; [constructor|].
  by apply sort_insert_Sorted.
Qed.
End SortInsert.

Lemma string_ltb_total (a b : string) :
  String.ltb a b = false → a ≠ b → String.ltb b a = true.
Proof.
  unfold String.ltb. rewrite (String.compare_antisym b a).
  destruct (String.compare a b) eqn:Hcmp; try done.
  intros _ Hne. by apply String.compare_eq_iff in Hcmp.
Qed.

Lemma graph_k_lt_le a b : graph_k_lt a b = true → graph_k_le a b.
Proof.
  unfold graph_k_lt, graph_k_le.
  intros [Hlt | [Heq%String.eqb_eq Hk%Z.ltb_lt]%andb_true_iff]%orb_true_iff.
  - by left.
  - right. split; [done|lia].
Qed.

Lemma graph_k_not_lt_le a b : graph_k_lt a b = false → graph_k_le b a.
Proof.
  unfold graph_k_lt, graph_k_le.
  intros [Hlt Hrest]%orb_false_iff.
  destruct (String.eqb_spec (graph a) (graph b)) as [Heq|Hne].
  - right. split; [done|]. simpl in Hrest. apply Z.ltb_ge in Hrest. lia.
  - left. by apply string_ltb_total.
Qed.

Lemma py_sort_graph_k l : Sorted graph_k_le (py_sort graph_k_lt l).
Proof.
  apply py_sort_Sorted; [apply graph_k_lt_le | apply graph_k_not_lt_le].
Qed.

Lemma string_ltb_trans (a b c : string) :
  String.ltb a b = true → String.ltb b c = true → String.ltb a c = true.
Proof.
  unfold String.ltb. intros Hab Hbc.
  destruct (String.compare a b) eqn:Cab; try done.
  destruct (String.compare b c) eqn:Cbc; try done.
  assert (String.le a c) as Hac.
  { transitivity b; unfold String.le, String.leb; [by rewrite Cab|].
    by rewrite Cbc. }
  unfold String.le, String.leb in Hac.
  destruct (String.compare a c) eqn:Cac; [|done..].
  apply String.compare_eq_iff in Cac as ->.
  rewrite String.compare_antisym, Cbc in Cab. done.
Qed.

Global Instance graph_k_le_trans : Transitive graph_k_le.
Proof.
  intros x y z [Hxy | [Hxy Hkxy]] [Hyz | [Hyz Hkyz]]; unfold graph_k_le.
  - left. by eapply string_ltb_trans.
  - left. by rewrite <-Hyz.
  - left. by rewrite Hxy.
  - right. split; [congruence|lia].
Qed.

Global Instance k_le_trans : Transitive k_le.
Proof. intros x y z. unfold k_le. lia. Qed.

(** A stable sort by graph of rows sorted by [k] leaves them sorted by
    graph, then by [k]: the table of the structured-log family. *)
Lemma sort_insert_by_graph x m :
  Sorted graph_k_le m → Forall (k_le x) m →
  Sorted graph_k_le (sort_insert graph_lt x m).
Proof.
  induction m as [|y m IH]; simpl; intros Hsorted Hk.
  { by repeat constructor. }
  apply Forall_cons in Hk as [Hxy Hk].
  destruct (graph_lt y x) eqn:Hyx.
  - inversion Hsorted; subst. constructor; [by apply IH|].
    apply (sort_insert_HdRel graph_lt); [done|]. by left.
  - constructor; [done|]. constructor.
    destruct (decide (graph x = graph y)) as [Heq|Hne].
    + by right.
    + left. apply string_ltb_total; [done|congruence].
Qed.

Lemma convert_rows_sorted tasklist alg set_name d :
  StronglySorted graph_k_le (convert_rows tasklist alg set_name d).
Proof.
  apply Sorted_StronglySorted; [apply _|]. unfold convert_rows.
  assert (StronglySorted k_le
            (py_sort k_lt (extract_log alg set_name d <$> tasklist))) as Hk.
  { apply Sorted_StronglySorted; [apply _|]. apply py_sort_Sorted.
    - intros a b Hlt. unfold k_le. by apply Z.ltb_lt in Hlt as ?%Z.lt_le_incl.
    - intros a b Hlt. unfold k_le. by apply Z.ltb_ge in Hlt. }
  induction Hk as [|x l Hl IH Hx]; simpl; [constructor|].
  apply sort_insert_by_graph; [done|].
  by rewrite py_sort_Permutation.
Qed.

(** ** The rows of a run of the text family *)

Lemma temp_row_key alg ti d : row_key (temp_row alg ti d) = task_pair ti.
Proof.
  unfold temp_row, parse_temp_line.
  destruct (files d !! ti_temp_file ti) as [[text|]|]; [|done..].
  destruct (negb _); [|done].
  by destruct (split _) as [|? [|? [|? [|? ?]]]].
Qed.

Lemma extract_temps_keys alg tis d rows :
  ∃ new, (extract_temps alg tis (d, rows)).2 = rows ++ new
         ∧ row_key <$> new = task_pair <$> tis.
Proof.
  unfold extract_temps. revert d rows.
  induction tis as [|ti tis IH]; intros d rows.
  { exists []. simpl. by rewrite app_nil_r. }
  cbn [foldl]. rewrite extract_temp_appends.
  destruct (IH (match parse_temp_line alg ti d with
                | Some _ => d
                | None => write_file (ti_temp_file ti) "0 0 0 0" d
                end) (rows ++ [temp_row alg ti d])) as (new & -> & Hkeys).
  exists (temp_row alg ti d :: new). rewrite <-app_assoc.
  split; [done|]. by rewrite !fmap_cons, Hkeys, temp_row_key.
Qed.

Lemma load_existing_rows v_k csv loaded :
  load_existing v_k csv = Some loaded →
  (∀ r, r ∈ loaded → k r ∈ v_k)
  ∧ (∀ line kv, line ∈ csv → py_int (c_k line) = Some kv →
       row_of_csv line kv ∈ loaded ↔ kv ∈ v_k).
Proof.
  revert loaded. induction csv as [|line csv IH]; intros loaded; simpl.
  { intros [= <-]. split.
    - intros r Hr. by apply elem_of_nil in Hr.
    - intros line kv Hline. by apply elem_of_nil in Hline. }
  destruct (py_int (c_k line)) as [kv0|] eqn:Hkv0; [|done]. simpl.
  destruct (load_existing v_k csv) as [rest|]; [|done]. simpl.
  intros [= <-]. destruct (IH rest eq_refl) as [IHk IHrow].
  destruct (int_in kv0 v_k) eqn:Hin.
  - apply int_in_true in Hin. split.
    + intros r [->|Hr]%elem_of_cons; [done|by apply IHk].
    + intros l kv [->|Hl]%elem_of_cons Hkv.
      * simplify_eq. split; [done|]. intros _. by left.
      * split.
        -- intros [Heq|Hr]%elem_of_cons; [|by apply (IHrow l kv)].
           by assert (kv = kv0) as -> by (by apply (f_equal k) in Heq).
        -- intros Hk. right. by apply (IHrow l kv).
  - assert (kv0 ∉ v_k) as Hnot.
    { intros Hk%int_in_true. congruence. }
    split; [done|].
    intros l kv [->|Hl]%elem_of_cons Hkv.
    + simplify_eq. split; [|done]. intros Hr. by apply IHk in Hr.
    + by apply IHrow.
Qed.

(** The rows a run leaves when its batch has come back. *)
Lemma extraction_rows run_parallel_commands alg (st : scan) :
  ∃ d3 extracted,
    match sc_tasks st with
    | [] => (sc_disk st, sc_rows st)
    | _ :: _ =>
        extract_temps alg (sc_tasks st)
          (run_parallel_commands (TextCommand <$> sc_tasks st) (sc_disk st),
           sc_rows st)
    end = (d3, sc_rows st ++ extracted)
    ∧ row_key <$> extracted = task_pair <$> sc_tasks st
    ∧ (sc_tasks st = [] → d3 = sc_disk st).
Proof.
  destruct (sc_tasks st) as [|ti tis] eqn:Htasks.
  { exists (sc_disk st), []. by rewrite app_nil_r. }
  destruct (extract_temps_keys alg (ti :: tis)
              (run_parallel_commands (TextCommand <$> ti :: tis)
                 (sc_disk st)) (sc_rows st)) as (new & Hrows & Hkeys).
  destruct (extract_temps alg (ti :: tis) _) as [d3 rows].
  exists d3, new. simpl in Hrows. by subst.
Qed.

Lemma cuttana_parallel_body_rows run_parallel_commands set_name ordering alg
    max_cores v_k gs d sfx d1 loaded :
  let path := cuttana_csv_path set_name ordering alg max_cores in
  let pairs := graph_major ((λ g, g +:+ sfx) <$> gs) v_k in
  ordering_suffix ordering = Some sfx →
  open_table false v_k path
    (makedirs (get_processed_output_dir set_name ordering max_cores) d)
  = Some (d1, loaded) →
  ∃ run new,
    cuttana_parallel_body run_parallel_commands false false set_name
      ordering alg max_cores v_k gs d = Some run
    ∧ tr_rows run ≡ₚ loaded ++ new
    ∧ Sorted graph_k_le (tr_rows run)
    ∧ (∀ q, q ∈ row_key <$> new → q ∈ pairs ∧ q ∉ row_key <$> loaded)
    ∧ (∀ q, q ∈ pairs → q ∈ row_key <$> tr_rows run)
    ∧ (NoDup pairs → NoDup (row_key <$> new))
    ∧ (tr_rows run ≠ [] →
         tr_written run = Some (tr_rows run)
         ∧ tables (tr_disk run) !! path
           = Some (render_row <$> tr_rows run))
    ∧ (tr_rows run = [] →
         tr_written run = None ∧ tables (tr_disk run) = tables d1).
Proof.
  intros path pairs Hsfx Hopen. unfold cuttana_parallel_body.
  cbn [negb]. fold path. rewrite Hopen. cbn [mbind option_bind].
  rewrite (scan_graphs_flat _ _ _ _ sfx) by done. fold pairs.
  generalize (cuttana_temp_dir set_name ordering alg max_cores).
  intros dir.
  pose proof (visit_all_spec alg dir pairs (Scan (makedirs dir d1) loaded []))
    as Hscan.
  cbv zeta in Hscan.
  destruct (visit_all false alg dir pairs _) as [st decs].
  cbn [fst snd sc_disk sc_rows sc_tasks] in Hscan.
  destruct Hscan as (Htab & adopted & batched & Hrows & Htasks & Hnew & Hcov
                     & Hnodup).
  cbn [mbind option_bind].
  destruct (extraction_rows run_parallel_commands alg st)
    as (d3 & extracted & -> & Hkeys & Hd3).
  rewrite Htasks in Hkeys. cbn [app] in Hkeys.
  assert (∀ q, q ∈ row_key <$> (adopted ++ extracted) →
               q ∈ pairs ∧ q ∉ row_key <$> loaded) as Hnew'.
  { intros q Hq. apply Hnew. by rewrite fmap_app, Hkeys in Hq. }
  assert (∀ rows, rows ≡ₚ loaded ++ adopted ++ extracted →
                  ∀ q, q ∈ pairs → q ∈ row_key <$> rows) as Hcov'.
  { intros rows Hperm q Hq. rewrite Hperm, !fmap_app, Hkeys.
    by apply Hcov. }
  assert (NoDup pairs → NoDup (row_key <$> (adopted ++ extracted)))
    as Hnodup'.
  { intros Hnd. rewrite fmap_app, Hkeys. by apply Hnodup. }
  rewrite Hrows, <-app_assoc.
  destruct (loaded ++ adopted ++ extracted) as [|r rows] eqn:Hfinal.
  - eexists _, (adopted ++ extracted). split; [reflexivity|].
    cbn [tr_rows tr_written tr_disk].
    split_and!; [by rewrite Hfinal|constructor|done| |done|done|].
    + intros q Hq. by apply (Hcov' []).
    + intros _. split; [done|].
      apply app_eq_nil in Hfinal as [_ [_ Hex]%app_eq_nil].
      subst extracted. symmetry in Hkeys.
      apply fmap_nil_inv in Hkeys. subst batched.
      rewrite Hd3 by (by rewrite Htasks). by rewrite Htab.
  - eexists _, (adopted ++ extracted). split; [reflexivity|].
    cbn [tr_rows tr_written tr_disk].
    split_and!.
    + by rewrite py_sort_Permutation, Hfinal.
    + apply py_sort_graph_k.
    + done.
    + apply Hcov'. by rewrite py_sort_Permutation.
    + done.
    + intros _. split; [done|]. unfold write_table. simpl.
      by rewrite lookup_insert_eq.
    + intros Hnil. apply (f_equal length) in Hnil.
      rewrite (Permutation_length (py_sort_Permutation _ _)) in Hnil.
      done.
Qed.

Lemma graph_major_cons {A} (g : A) names v_k :
  graph_major (g :: names) v_k
  = ((λ kv, (g, kv)) <$> v_k) ++ graph_major names v_k.
Proof. done. Qed.

Lemma graph_major_elem {A} (names : list A) v_k g kv :
  (g, kv) ∈ graph_major names v_k ↔ g ∈ names ∧ kv ∈ v_k.
Proof.
  induction names as [|g0 names IH].
  { unfold graph_major. simpl. rewrite !elem_of_nil. tauto. }
  rewrite graph_major_cons, elem_of_app, IH, list_elem_of_fmap, elem_of_cons.
  split.
  - intros [(kv0 & [= -> ->] & Hk) | [Hg Hk]]; auto.
  - intros [[->|Hg] Hk]; [left; eauto | right; auto].
Qed.


Lemma string_app_length (a b : string) :
  String.length (a +:+ b) = (String.length a + String.length b)%nat.
Proof.
  induction a as [|c a IH]; [done|].
  change (S (String.length (a +:+ b))
          = S (String.length a + String.length b)).
  by rewrite IH.
Qed.

Lemma string_app_inj_l (sfx a b : string) :
  a +:+ sfx = b +:+ sfx → a = b.
Proof.
  revert b. induction a as [|c a IH]; intros [|c' b] Heq; [done|..].
  - apply (f_equal String.length) in Heq.
    rewrite !string_app_length in Heq. simpl in Heq. lia.
  - apply (f_equal String.length) in Heq.
    rewrite !string_app_length in Heq. simpl in Heq. lia.
  - change (String c (a +:+ sfx) = String c' (b +:+ sfx)) in Heq.
    injection Heq as -> Heq. f_equal. by apply IH.
Qed.

Lemma open_table_loaded v_k path d d1 loaded :
  open_table false v_k path d = Some (d1, loaded) →
  d1 = d
  ∧ (∀ r, r ∈ loaded → k r ∈ v_k)
  ∧ (∀ csv line kv, tables d !! path = Some csv → line ∈ csv →
       py_int (c_k line) = Some kv →
       row_of_csv line kv ∈ loaded ↔ kv ∈ v_k).
Proof.
  unfold open_table. destruct (tables d !! path) as [csv|]; simpl.
  - destruct (load_existing v_k csv) as [rows|] eqn:Hload; [|done]. simpl.
    intros [= <- <-]. destruct (load_existing_rows _ _ _ Hload) as [Hk Hrow].
    split_and!; [done..|]. intros csv' line kv [= <-]. apply Hrow.
  - intros [= <- <-]. split_and!; [done| |done].
    intros r Hr. by apply elem_of_nil in Hr.
Qed.


(** ** A second run *)

Lemma load_rendered v_k rows :
  (∀ kv, kv ∈ v_k → py_int (pretty kv) = Some kv) →
  (∀ r, r ∈ rows → k r ∈ v_k) →
  load_existing v_k (render_row <$> rows)
  = Some ((λ r, row_of_csv (render_row r) (k r)) <$> rows).
Proof.
  intros Hint. induction rows as [|r rows IH]; intros Hk; [done|].
  rewrite !fmap_cons. cbn [load_existing].
  assert (k r ∈ v_k) as Hr by (apply Hk; by left).
  change (c_k (render_row r)) with (pretty (k r)).
  rewrite (Hint _ Hr). cbn [mbind option_bind].
  rewrite IH by (intros r' Hr'; apply Hk; by right).
  cbn [mbind option_bind]. apply int_in_true in Hr. by rewrite Hr.
Qed.

Lemma open_table_same_tables v_k path dA dB dB' loaded :
  tables dA = tables dB →
  open_table false v_k path dB = Some (dB', loaded) →
  open_table false v_k path dA = Some (dA, loaded).
Proof.
  unfold open_table. intros ->.
  destruct (tables dB !! path) as [csv|]; simpl.
  - destruct (load_existing v_k csv); simpl; [|done]. by intros [= <- <-].
  - by intros [= <- <-].
Qed.

Lemma visit_all_listed alg dir pairs st :
  (∀ q, q ∈ pairs → q ∈ row_key <$> sc_rows st) →
  visit_all false alg dir pairs st = (st, (λ q, (q, SKIP)) <$> pairs).
Proof.
  induction pairs as [|[raw kv] rest IH]; intros Hlisted; [done|].
  cbn [visit_all]. rewrite visit_pair_listed.
  - rewrite IH; [done|]. intros q Hq. apply Hlisted. by right.
  - apply in_rows_true. apply Hlisted. by left.
Qed.

Lemma decide_tasks_covered ts d :
  (∀ t, t ∈ ts → is_Some (files d !! fbs_target_path t)) →
  decide_tasks false ts d = (d, (λ t, (t, SKIP)) <$> ts).
Proof.
  induction ts as [|t ts IH]; intros Hcov; [done|].
  cbn [decide_tasks]. unfold decide_task.
  assert (exists_file d (fbs_target_path t) = true) as ->.
  { apply exists_file_true. apply Hcov. by left. }
  rewrite IH; [done|]. intros t' Ht'. apply Hcov. by right.
Qed.

Lemma cuttana_rows_in_scope run_parallel_commands set_name ordering alg
    max_cores v_k gs d sfx run :
  ordering_suffix ordering = Some sfx →
  cuttana_parallel_body run_parallel_commands false false set_name ordering
    alg max_cores v_k gs d = Some run →
  (∀ r, r ∈ tr_rows run → k r ∈ v_k)
  ∧ (∀ q, q ∈ graph_major ((λ g, g +:+ sfx) <$> gs) v_k →
       q ∈ row_key <$> tr_rows run)
  ∧ (tr_rows run ≠ [] →
       tables (tr_disk run)
         !! cuttana_csv_path set_name ordering alg max_cores
       = Some (render_row <$> tr_rows run))
  ∧ (tr_rows run = [] →
       tables (tr_disk run) = tables d)
  ∧ ∃ d1 loaded,
      open_table false v_k
        (cuttana_csv_path set_name ordering alg max_cores)
        (makedirs (get_processed_output_dir set_name ordering max_cores) d)
      = Some (d1, loaded).
Proof.
  intros Hsfx Hrun.
  destruct (cuttana_parallel_body_decisions _ _ _ _ _ _ _ _ _ _ _ Hrun)
    as (d1 & loaded & st & Hopen & _).
  cbn [negb] in Hopen.
  destruct (cuttana_parallel_body_rows run_parallel_commands set_name
              ordering alg max_cores v_k gs d sfx d1 loaded Hsfx Hopen)
    as (run' & new & Hrun' & Hperm & _ & Hnew & Hcov & _ & Hwritten
        & Hempty).
  assert (run' = run) as -> by congruence.
  pose proof Hopen as Hopen'.
  apply open_table_loaded in Hopen' as (-> & Hloaded_k & _).
  split_and!.
  - intros r Hr. rewrite Hperm in Hr.
    apply elem_of_app in Hr as [Hr|Hr]; [by apply Hloaded_k|].
    destruct (Hnew (row_key r)) as [Hpair _].
    { apply list_elem_of_fmap. eauto. }
    unfold row_key in Hpair. by apply graph_major_elem in Hpair as [_ ?].
  - done.
  - intros Hne. by apply Hwritten.
  - intros Hnil. by destruct (Hempty Hnil) as [_ ->].
  - eauto.
Qed.

(** C5, as the code has it: with overwrite disabled, a second run of the
    text family after a completed first one decides SKIP for every pair,
    whatever the external binaries of the first run left behind, since
    every pair of the first run has a row in the table it wrote.  For the
    structured-log family a Task is decided SKIP exactly when its canonical
    or its legacy artifact is on the disk at its turn: the second pass
    decides SKIP for every Task, and changes nothing, if every Task has its
    canonical artifact on the disk the first run left, and a Task with
    neither a canonical nor a legacy artifact there is decided EXECUTE
    again. *)
Theorem second_run_decisions run_first run_second set_name ordering alg
    max_cores v_k gs d sfx run1 ts dl :
  ordering_suffix ordering = Some sfx →
  (∀ kv, kv ∈ v_k → py_int (pretty kv) = Some kv) →
  cuttana_parallel_body run_first false false set_name ordering alg
    max_cores v_k gs d = Some run1 →
  (∃ run2,
     cuttana_parallel_body run_second false false set_name ordering alg
       max_cores v_k gs (tr_disk run1) = Some run2
     ∧ Forall (λ x, x.2 = SKIP) (tr_decisions run2))
  ∧ ((∀ t, t ∈ ts → is_Some (files dl !! fbs_target_path t)) →
     decide_tasks false ts dl = (dl, (λ t, (t, SKIP)) <$> ts))
  ∧ (∀ t, (decide_task false t dl).2 = SKIP
          ↔ is_Some (files dl !! fbs_target_path t)
            ∨ is_Some (files dl !! old_target_path t))
  ∧ (∀ t, files dl !! fbs_target_path t = None →
          files dl !! old_target_path t = None →
          decide_task false t dl = (dl, EXECUTE)).
Proof.
  intros Hsfx Hint Hrun1. split_and!.
  - destruct (cuttana_rows_in_scope _ _ _ _ _ _ _ _ _ _ Hsfx Hrun1)
      as (Hscope & Hcov & Hwritten & Hempty & d1 & loaded & Hopen1).
    set (path := cuttana_csv_path set_name ordering alg max_cores) in *.
    set (pdir := get_processed_output_dir set_name ordering max_cores) in *.
    assert (∃ loaded2,
              open_table false v_k path (makedirs pdir (tr_disk run1))
              = Some (makedirs pdir (tr_disk run1), loaded2)
              ∧ ∀ q, q ∈ graph_major ((λ g, g +:+ sfx) <$> gs) v_k →
                     q ∈ row_key <$> loaded2) as (loaded2 & Hopen2 & Hcov2).
    { destruct (tr_rows run1) as [|r rows] eqn:Hrows.
      - exists loaded. split.
        + eapply open_table_same_tables; [|exact Hopen1].
          simpl. by rewrite Hempty.
        + intros q Hq. apply Hcov in Hq. by apply elem_of_nil in Hq.
      - exists ((λ r, row_of_csv (render_row r) (k r)) <$> (r :: rows)).
        split.
        + unfold open_table.
          change (tables (makedirs pdir (tr_disk run1)))
            with (tables (tr_disk run1)).
          rewrite Hwritten by done. cbn [negb].
          rewrite load_rendered by done. done.
        + intros q Hq. apply Hcov in Hq.
          by rewrite <-list_fmap_compose. }
    destruct (cuttana_parallel_body_rows run_second set_name ordering alg
                max_cores v_k gs (tr_disk run1) sfx _ loaded2 Hsfx Hopen2)
      as (run2 & _ & Hrun2 & _).
    exists run2. split; [done|].
    destruct (cuttana_parallel_body_decisions _ _ _ _ _ _ _ _ _ _ _ Hrun2)
      as (d1' & loaded' & st & Hopen' & Hscan).
    cbn [negb] in Hopen', Hscan. fold path pdir in Hopen'.
    rewrite Hopen2 in Hopen'. injection Hopen' as <- <-.
    rewrite (scan_graphs_flat _ _ _ _ sfx) in Hscan by done.
    rewrite visit_all_listed in Hscan by done.
    injection Hscan as _ <-.
    apply Forall_fmap, Forall_forall. done.
  - apply decide_tasks_covered.
  - intros t. unfold decide_task. rewrite <-!exists_file_true.
    destruct (exists_file dl (fbs_target_path t)),
      (exists_file dl (old_target_path t)); cbn [snd]; split;
      try done; auto; by intros [|].
  - intros t Hc Hl. unfold decide_task.
    apply exists_file_false in Hc, Hl. by rewrite Hc, Hl.
Qed.
End Properties.

(** * The properties on concrete inputs *)

Section Scenarios.
#[local] Existing Instance reference_platform.

(** C1 fails as stated: the edge-cut text "00" parses as zero, yet the
    record built from it has success "1"; the same holds for "0.0", also
    when the row is read from the temp file of a Task. *)
Lemma zero_text_marked_successful :
  parses_nonzero "00" = false
  ∧ success (produce_result "alg" "g" (PStr "0") 4 (PStr "1.5") (PStr "20")
               (PStr "00") (PStr "0.0")) = "1"%string
  ∧ parses_nonzero "0.0" = false
  ∧ success (temp_row "alg" sample_info
               (Disk {[ ti_temp_file sample_info := Text "1.5 20 0.0 0.0" ]}
                     ∅ ∅)) = "1"%string.
Proof. by vm_compute. Qed.

Lemma decide_task_policy_witness :
  (decide_task false sample_task legacy_disk).2 = SKIP
  ∧ files (decide_task false sample_task legacy_disk).1
      !! fbs_target_path sample_task = Some (Text "old log")
  ∧ files (decide_task false sample_task legacy_disk).1
      !! old_target_path sample_task = None.
Proof.
  destruct (decide_task_policy false sample_task legacy_disk)
    as (_ & _ & Hlegacy & _).
  destruct (Hlegacy eq_refl eq_refl (Text "old log") eq_refl)
    as (Hdec & Hcanonical & Hold & _).
  split; [exact Hdec|]. split; [exact Hcanonical|exact Hold].
Defined.

(** C3 fails as stated for the text family: with graph set [g1, g2],
    ordering "random" and partition counts [4, 8] the scan batches the
    Tasks (4, g1_r1), (8, g1_r1), (4, g2_r1), (8, g2_r1), which is not the
    k-major order. *)
Lemma text_family_is_graph_major :
  (λ res, (λ ti, (ti_k ti, ti_graph_name ti)) <$> sc_tasks res.1)
    <$> scan_graphs false "alg" "/tmp/alg" "random" ["g1"; "g2"] [4; 8]
          (Scan empty_disk [] [])
  = Some [(4, "g1_r1"); (8, "g1_r1"); (4, "g2_r1"); (8, "g2_r1")]
  ∧ [(4, "g1_r1"); (8, "g1_r1"); (4, "g2_r1"); (8, "g2_r1")]
    ≠ k_major [4; 8] ["g1_r1"; "g2_r1"]%string.
Proof. split; [by vm_compute|]. vm_compute. discriminate. Qed.

Lemma expansion_order_witness :
  ordering_suffix "random" = Some "_r1"%string
  ∧ task_stream_buffer true ∅ "131072" = Some "32768"%string
  ∧ (∃ ts, expand_tasks true "/out" "random" ∅ [4; 8] ["g1"; "g2"] = Some ts
           ∧ task_key <$> ts
             = [(4, "g1_r1"); (4, "g2_r1"); (8, "g1_r1"); (8, "g2_r1")]%string)
  ∧ (∃ st' decs,
       scan_graphs false "alg" "/tmp/alg" "random" ["g1"; "g2"] [4; 8]
         (Scan empty_disk [] []) = Some (st', decs)
       ∧ decs.*1
         = [("g1_r1", 4); ("g1_r1", 8); ("g2_r1", 4); ("g2_r1", 8)]%string
       ∧ task_pair <$> sc_tasks st' = [] ++ executed decs).
Proof.
  split; [reflexivity|]. split; [reflexivity|].
  exact (expansion_order true "/out" "random" ∅ "_r1" "32768" false "alg"
           "/tmp/alg" [4; 8] ["g1"; "g2"] (Scan empty_disk [] [])
           eq_refl eq_refl).
Defined.


(** The scenario of C4: rows for the partition counts 4, 8 and 32 on disk,
    a run scoped to 4, 8 and 16 whose one new Task prints
    "1.5 20 7 0.1".  The table written has three rows, sorted; the rows of
    4 and 8 are the old ones and the row of 32 is gone. *)
Lemma table_merge_scenario :
  (λ run, tables (tr_disk run)
            !! cuttana_csv_path "tuning_set" "natural" "alg" 4)
    <$> cuttana_parallel_body (tee_line "1.5 20 7 0.1") false false
          "tuning_set" "natural" "alg" 4 [4; 8; 16] ["g"] merge_disk
  = Some (Some [CsvRow "alg" "g" "0" "4" "1.0" "10" "5" "0.5" "1";
                CsvRow "alg" "g" "0" "8" "2.0" "11" "6" "0.6" "1";
                CsvRow "alg" "g" "0" "16" "1.5" "20" "7" "0.1" "1"]).
Proof. by vm_compute. Qed.

Lemma merge_disk_opens :
  open_table false [4; 8; 16]
    (cuttana_csv_path "tuning_set" "natural" "alg" 4)
    (makedirs (get_processed_output_dir "tuning_set" "natural" 4) merge_disk)
  = Some (makedirs (get_processed_output_dir "tuning_set" "natural" 4)
                   merge_disk,
          [row_of_csv (CsvRow "alg" "g" "0" "4" "1.0" "10" "5" "0.5" "1") 4;
           row_of_csv (CsvRow "alg" "g" "0" "8" "2.0" "11" "6" "0.6" "1") 8]).
Proof.
  unfold open_table, makedirs, merge_disk. cbn [tables].
  rewrite lookup_singleton_eq. reflexivity.
Qed.


(** C5 fails as stated for the structured-log family: on a disk that has
    the directory of line 265 and nothing else, when the binary of the one
    Task leaves no artifact, the first run decides EXECUTE and returns, and
    so does a second run on the disk the first one left. *)
Lemma failed_binary_is_run_again :
  (λ run1,
     (snd <$> lr_decisions run1,
      (λ run2, snd <$> lr_decisions run2)
        <$> algo_parallel_body no_output "heistream" false false
              "local_cc_set" "natural" ∅ "alg" 4 [8] ["g1"] (lr_disk run1)))
    <$> algo_parallel_body no_output "heistream" false false "local_cc_set"
          "natural" ∅ "alg" 4 [8] ["g1"] scripts_disk
  = Some ([EXECUTE], Some [EXECUTE]).
Proof. by vm_compute. Qed.

Lemma second_run_decisions_witness :
  ordering_suffix "natural" = Some EmptyString
  ∧ ∃ run1 run2,
      cuttana_parallel_body no_output false false "tuning_set" "natural"
        "alg" 4 [4; 8; 16] ["g"] merge_disk = Some run1
      ∧ cuttana_parallel_body (tee_line "1 2 3 4") false false "tuning_set"
          "natural" "alg" 4 [4; 8; 16] ["g"] (tr_disk run1) = Some run2
      ∧ Forall (λ x, x.2 = SKIP) (tr_decisions run2).
Proof.
  split; [reflexivity|].
  destruct (cuttana_parallel_body_rows no_output "tuning_set" "natural"
              "alg" 4 [4; 8; 16] ["g"] merge_disk EmptyString _ _ eq_refl
              merge_disk_opens) as (run1 & _ & Hrun1 & _).
  assert (∀ kv, kv ∈ [4; 8; 16] → py_int (pretty kv) = Some kv) as Hint.
  { intros kv Hkv.
    repeat (apply elem_of_cons in Hkv as [->|Hkv]; [reflexivity|]).
    by apply elem_of_nil in Hkv. }
  destruct (second_run_decisions no_output (tee_line "1 2 3 4") "tuning_set"
              "natural" "alg" 4 [4; 8; 16] ["g"] merge_disk EmptyString run1
              [] empty_disk eq_refl Hint Hrun1)
    as ((run2 & Hrun2 & Hskip) & _).
  exists run1, run2. split; [exact Hrun1|]. split; [exact Hrun2|exact Hskip].
Defined.

Lemma temp_file_check_witness :
  (visit_pair false "alg" "/tmp/alg" "g" 16 adoptable_scan).2 = SKIP
  ∧ sc_rows (visit_pair false "alg" "/tmp/alg" "g" 16 adoptable_scan).1
    = [produce_result "alg" "g" (PStr "0") 16 (PStr "1.5") (PStr "20")
         (PStr "7") (PStr "0.1")]
  ∧ (visit_pair false "alg" "/tmp/alg" "g" 16 blank_scan).2 = EXECUTE
  ∧ files (sc_disk (visit_pair false "alg" "/tmp/alg" "g" 16 blank_scan).1)
      !! temp_result_path "/tmp/alg" "g" 16 = None.
Proof.
  destruct (temp_file_check "alg" "/tmp/alg" "g" 16 adoptable_scan
              "1.5 20 7 0.1") as (_ & Hadopt & _).
  destruct (temp_file_check "alg" "/tmp/alg" "g" 16 blank_scan "  ")
    as (_ & _ & Hreject & Hblank).
  rewrite (Hadopt eq_refl eq_refl "1.5" "20" "7" "0.1" [] eq_refl)%string.
  assert (length (split (strip "  ")) < 4)%nat as Hshort
    by (rewrite (Hblank eq_refl); simpl; lia).
  destruct (Hreject eq_refl eq_refl Hshort) as [-> Hgone].
  split; [reflexivity|]. split; [reflexivity|].
  split; [reflexivity|exact Hgone].
Defined.

Lemma out_of_scope_log_witness :
  SET_CONFIG !! "local_cc_set"%string = Some (SetConfig [8] [])
  ∧ (64 ∉ [8])
  ∧ parse_flatbuffer_file (fbs_target_path sample_task) "alg"
      "local_cc_set" stale_log_disk = Some None
  ∧ extract_log "alg" "local_cc_set" stale_log_disk sample_task
    = produce_failed_result "alg" "g1" 4.
Proof.
  assert (64 ∉ [8]) as Hout.
  { intros Hin. apply elem_of_cons in Hin as [Heq|Hin]; [discriminate|].
    by apply elem_of_nil in Hin. }
  split; [reflexivity|]. split; [exact Hout|].
  refine (out_of_scope_log_is_discarded "alg" "local_cc_set" stale_log_disk
            sample_task "g1.graph 100 0 64 1500 2048 17"
            {| log_GraphMetadata :=
                 Some {| Filename := Some (Some "g1.graph"%string);
                         NumEdges := 100 |};
               log_PartitionConfiguration := Some {| Seed := 0; K := 64 |};
               log_Runtime_TotalTime := Some (1500, 1000);
               log_MemoryConsumption_MaxRss := Some 2048;
               log_Metrics_EdgeCut := Some 17 |}
            {| Filename := Some (Some "g1.graph"%string); NumEdges := 100 |}
            {| Seed := 0; K := 64 |} (SetConfig [8] [])
            eq_refl eq_refl eq_refl _ eq_refl eq_refl Hout).
  discriminate.
Defined.


Lemma scripts_disk_has_dir : scripts_dir ∈ dirs scripts_disk.
Proof. unfold scripts_disk. cbn [dirs]. by apply elem_of_singleton. Qed.

Lemma quick_test_single_task_witness :
  ordering_suffix "random" = Some "_r1"%string
  ∧ scripts_dir ∈ dirs scripts_disk
  ∧ ∃ run t,
      algo_parallel_body no_output "heistream" false true "tuning_set"
        "random" ∅ "alg" 4 [4; 8; 16; 32; 64; 128; 256]
        ["a"; "b"; "c"; "d"; "e"] scripts_disk = Some run
      ∧ lr_tasklist run = [t]
      ∧ task_key t = (4, "a_r1"%string)
      ∧ length (lr_decisions run) = 1%nat.
Proof.
  pose proof scripts_disk_has_dir as Hdir.
  split; [reflexivity|]. split; [exact Hdir|].
  assert (task_stream_buffer (is_heistream "heistream") ∅
            (default "131072"%string
               ((∅ : gmap string string) !! "max_pq_size"%string))
          = Some "32768"%string) as Hbuffer by (by vm_compute).
  destruct (quick_test_single_task no_output "heistream" false "tuning_set"
              "random" ∅ "alg" 4 "_r1" "32768" 4 [8; 16; 32; 64; 128; 256]
              "a" ["b"; "c"; "d"; "e"] scripts_disk eq_refl Hbuffer)
    as ((t & Hkey & _ & Hall & Hreturns) & _).
  destruct (Hreturns Hdir (λ _ _ Hkept, Hkept)) as (run & Hrun).
  destruct (Hall run Hrun) as (Hlist & Hone).
  exists run, t. split; [exact Hrun|]. split; [exact Hlist|].
  split; [exact Hkey|exact Hone].
Defined.

End Scenarios.

(** * Further properties of the sources *)

(** ** Strings *)

Lemma string_app_cons c (a b : string) : String c a +:+ b = String c (a +:+ b).
Proof. done. Qed.

Lemma string_app_nil_r (s : string) : s +:+ EmptyString = s.
Proof.
  induction s as [|c s IH]; [done|]. by rewrite string_app_cons, IH.
Qed.

Lemma string_app_assoc (a b c : string) : (a +:+ b) +:+ c = a +:+ (b +:+ c).
Proof.
  induction a as [|x a IH]; [done|]. by rewrite !string_app_cons, IH.
Qed.

Lemma string_rev_app_spec (s acc : string) :
  String.rev_app s acc = String.rev s +:+ acc.
Proof.
  unfold String.rev. revert acc.
  induction s as [|c s IH]; intros acc; [done|].
  simpl. rewrite (IH (String c acc)), (IH (String c EmptyString)).
  by rewrite string_app_assoc.
Qed.

Lemma string_rev_cons c (s : string) :
  String.rev (String c s) = String.rev s +:+ String c EmptyString.
Proof. unfold String.rev at 1. simpl. apply string_rev_app_spec. Qed.

Lemma string_rev_app (a b : string) :
  String.rev (a +:+ b) = String.rev b +:+ String.rev a.
Proof.
  induction a as [|c a IH].
  - by rewrite string_app_nil_r.
  - by rewrite string_app_cons, !string_rev_cons, IH, string_app_assoc.
Qed.

Lemma string_rev_involutive (s : string) : String.rev (String.rev s) = s.
Proof.
  induction s as [|c s IH]; [done|].
  by rewrite string_rev_cons, string_rev_app, IH.
Qed.

Lemma all_space_app (a b : string) :
  all_space (a +:+ b) = all_space a && all_space b.
Proof.
  induction a as [|c a IH]; [done|].
  rewrite string_app_cons. simpl. by rewrite IH, andb_assoc.
Qed.

Lemma all_space_rev (s : string) : all_space (String.rev s) = all_space s.
Proof.
  induction s as [|c s IH]; [done|].
  rewrite string_rev_cons, all_space_app, IH. simpl.
  by rewrite andb_true_r, andb_comm.
Qed.

Lemma lstrip_decompose (s : string) :
  ∃ w, all_space w = true ∧ s = w +:+ lstrip s.
Proof.
  induction s as [|c s (w & Hw & Hs)]; [by exists EmptyString|].
  simpl. destruct (isspace c) eqn:Hc.
  - exists (String c w). simpl. rewrite Hc, Hw. split; [done|].
    by rewrite string_app_cons, <-Hs.
  - by exists EmptyString.
Qed.

Lemma rstrip_decompose (s : string) :
  ∃ w, all_space w = true ∧ s = rstrip s +:+ w.
Proof.
  destruct (lstrip_decompose (String.rev s)) as (w & Hw & Hs).
  exists (String.rev w). split; [by rewrite all_space_rev|].
  unfold rstrip. rewrite <-string_rev_app, <-Hs.
  by rewrite string_rev_involutive.
Qed.

Lemma lstrip_head (s : string) c r :
  lstrip s = String c r → isspace c = false.
Proof.
  induction s as [|x s IH]; simpl; [done|].
  destruct (isspace x) eqn:Hx; [done|]. by intros [= <- _].
Qed.

Lemma lstrip_no_space c (r : string) :
  isspace c = false → lstrip (String c r) = String c r.
Proof. intros Hc. simpl. by rewrite Hc. Qed.

Lemma lstrip_idemp (s : string) : lstrip (lstrip s) = lstrip s.
Proof.
  destruct (lstrip s) as [|c r] eqn:Hs; [done|].
  apply lstrip_no_space. by eapply lstrip_head.
Qed.

Lemma rstrip_idemp (s : string) : rstrip (rstrip s) = rstrip s.
Proof.
  unfold rstrip. by rewrite string_rev_involutive, lstrip_idemp.
Qed.

Lemma lstrip_rstrip (s : string) : lstrip (rstrip (lstrip s)) = rstrip (lstrip s).
Proof.
  destruct (rstrip_decompose (lstrip s)) as (w & _ & Hs).
  destruct (rstrip (lstrip s)) as [|c r] eqn:Hr; [done|].
  rewrite string_app_cons in Hs.
  apply lstrip_no_space. by eapply lstrip_head.
Qed.

(** [strip] leaves nothing to strip. *)
Lemma strip_idemp (s : string) : strip (strip s) = strip s.
Proof.
  unfold strip. by rewrite lstrip_rstrip, rstrip_idemp.
Qed.

Lemma split_go_all_space cur (w : string) :
  all_space w = true →
  split_go cur w = match cur with Some x => [String.rev x] | None => [] end.
Proof.
  revert cur. induction w as [|c w IH]; intros cur; simpl; [done|].
  intros [Hc Hw]%andb_true_iff. rewrite Hc.
  destruct cur; by rewrite (IH None).
Qed.

Lemma split_go_trailing cur (s w : string) :
  all_space w = true → split_go cur (s +:+ w) = split_go cur s.
Proof.
  intros Hw. revert cur. induction s as [|c s IH]; intros cur.
  - change (EmptyString +:+ w) with w. by rewrite split_go_all_space.
  - rewrite string_app_cons. simpl.
    destruct (isspace c); [destruct cur|]; by rewrite IH.
Qed.

Lemma split_lstrip (s : string) : split (lstrip s) = split s.
Proof.
  unfold split. induction s as [|c s IH]; simpl; [done|].
  destruct (isspace c) eqn:Hc; [done|]. simpl. by rewrite Hc.
Qed.

(** Stripping a text does not change its tokens. *)
Lemma split_strip (s : string) : split (strip s) = split s.
Proof.
  unfold strip. destruct (rstrip_decompose (lstrip s)) as (w & Hw & Hs).
  rewrite <-(split_lstrip s). rewrite Hs at 2.
  unfold split. by rewrite split_go_trailing.
Qed.

(** The tokens of the first line are the first tokens of the text. *)
Lemma split_go_readline cur (s : string) :
  ∃ more, split_go cur s = split_go cur (readline s) ++ more.
Proof.
  revert cur. induction s as [|c s IH]; intros cur; simpl.
  { exists []. by rewrite app_nil_r. }
  destruct (Ascii.eqb_spec c "010"%char) as [->|Hc].
  - simpl. exists (split_go None s). by destruct cur.
  - simpl. destruct (isspace c).
    + destruct (IH None) as (more & ->). exists more. by destruct cur.
    + apply IH.
Qed.

Section Further.
Context `{Platform}.

(** ** Graph identifiers and Task Expansion *)

Lemma ordering_suffix_None ordering :
  ordering_suffix ordering = None
  ↔ ordering ∉ ["natural"; "random"; "random2"; "random3"]%string.
Proof.
  unfold ordering_suffix.
  repeat match goal with
         | |- context [String.eqb ordering ?s] =>
             destruct (String.eqb_spec ordering s) as [->|?];
             [split; [intros [=]|]; intros Hnot; exfalso; apply Hnot;
              repeat (first [by left | right])|]
         end.
  split; [intros _|done].
  rewrite !not_elem_of_cons. split_and!; [done..|]. apply not_elem_of_nil.
Qed.

(** X1: [get_graph_name] ends the process exactly for an ordering outside
    natural, random, random2 and random3, and for one ordering two
    different graphs never get the same identifier. *)
Theorem get_graph_name_injective ordering :
  (∀ g, get_graph_name g ordering = None
        ↔ ordering ∉ ["natural"; "random"; "random2"; "random3"]%string)
  ∧ (∀ g1 g2 name,
       get_graph_name g1 ordering = Some name →
       get_graph_name g2 ordering = Some name → g1 = g2).
Proof.
  split.
  - intros g. rewrite get_graph_name_suffix, <-ordering_suffix_None.
    by destruct (ordering_suffix ordering).
  - intros g1 g2 name. rewrite !get_graph_name_suffix.
    destruct (ordering_suffix ordering) as [sfx|]; simpl; [|done].
    intros [= <-] [= Heq]. symmetry. by eapply string_app_inj_l.
Qed.

Lemma k_major_cons {A} kv ks (names : list A) :
  k_major (kv :: ks) names = ((λ g, (kv, g)) <$> names) ++ k_major ks names.
Proof. done. Qed.

Lemma k_major_elem {A} v_k (names : list A) kv g :
  (kv, g) ∈ k_major v_k names ↔ kv ∈ v_k ∧ g ∈ names.
Proof.
  induction v_k as [|k0 v_k IH].
  { unfold k_major. simpl. rewrite !elem_of_nil. tauto. }
  rewrite k_major_cons, elem_of_app, IH, list_elem_of_fmap, elem_of_cons.
  split.
  - intros [(g0 & [= -> ->] & Hg) | [Hk Hg]]; auto.
  - intros [[->|Hk] Hg]; [left; eauto | right; auto].
Qed.

Lemma k_major_NoDup {A} v_k (names : list A) :
  NoDup v_k → NoDup names → NoDup (k_major v_k names).
Proof.
  intros Hk Hnames. induction Hk as [|kv v_k Hfresh Hk IH].
  { apply NoDup_nil_2. }
  rewrite k_major_cons. apply NoDup_app. split_and!; [| |done].
  - apply NoDup_fmap_2; [|done]. by intros ?? [= ->].
  - intros [kv' g] (g0 & [= -> ->] & _)%list_elem_of_fmap
      [Hin _]%k_major_elem. done.
Qed.

Lemma k_major_length {A} v_k (names : list A) :
  length (k_major v_k names) = (length v_k * length names)%nat.
Proof.
  induction v_k as [|kv v_k IH]; [done|].
  rewrite k_major_cons, length_app, length_fmap, IH. done.
Qed.

(** X2: for a valid ordering, Task Expansion of the structured-log family
    returns one Task per pair, [len(v_k) * len(graph_set)] in all, and no
    two Tasks share their (k, graph) pair when neither list repeats an
    entry. *)
Theorem expansion_one_task_per_pair heistream folder ordering hyper sfx
    buffer v_k gs :
  ordering_suffix ordering = Some sfx →
  task_stream_buffer heistream hyper
    (default "131072"%string (hyper !! "max_pq_size"%string)) = Some buffer →
  ∃ ts, expand_tasks heistream folder ordering hyper v_k gs = Some ts
        ∧ length ts = (length v_k * length gs)%nat
        ∧ (NoDup v_k → NoDup gs → NoDup (task_key <$> ts)).
Proof.
  intros Hsfx Hbuf.
  destruct (expand_tasks_keys heistream folder ordering hyper sfx buffer v_k
              gs Hsfx Hbuf) as (ts & Hts & Hkeys).
  exists ts. split_and!; [done| |].
  - rewrite <-(length_fmap task_key), Hkeys, k_major_length.
    by rewrite length_fmap.
  - intros Hk Hgs. rewrite Hkeys. apply k_major_NoDup; [done|].
    apply NoDup_fmap_2; [|done]. intros a b. apply string_app_inj_l.
Qed.

Lemma expand_graphs_invalid heistream folder ordering hyper kv gs :
  ordering_suffix ordering = None →
  expand_graphs heistream folder ordering hyper kv gs
  = match gs with [] => Some [] | _ :: _ => None end.
Proof.
  intros Hbad. destruct gs as [|g gs]; [done|]. simpl. unfold make_task.
  by rewrite get_graph_name_suffix, Hbad.
Qed.

Lemma scan_ks_invalid overwrite alg dir ordering g v_k st :
  ordering_suffix ordering = None →
  scan_ks overwrite alg dir ordering g v_k st
  = match v_k with [] => Some (st, []) | _ :: _ => None end.
Proof.
  intros Hbad. destruct v_k as [|kv ks]; [done|]. simpl.
  by rewrite get_graph_name_suffix, Hbad.
Qed.

(** X3: an invalid ordering ends the process only when there is a pair to
    build: with an empty partition-count list or an empty graph set both
    families go on with no Task at all. *)
Theorem invalid_ordering_needs_a_pair heistream folder ordering hyper
    overwrite alg dir v_k gs st :
  ordering_suffix ordering = None →
  expand_tasks heistream folder ordering hyper v_k gs
  = (if bool_decide (v_k = [] ∨ gs = []) then Some [] else None)
  ∧ scan_graphs overwrite alg dir ordering gs v_k st
    = (if bool_decide (v_k = [] ∨ gs = []) then Some (st, []) else None).
Proof.
  intros Hbad. split.
  - induction v_k as [|kv ks IH]; [by rewrite bool_decide_eq_true_2; auto|].
    cbn [expand_tasks]. rewrite expand_graphs_invalid by done.
    destruct gs as [|g gs].
    + rewrite bool_decide_eq_true_2 in * by auto. by rewrite IH.
    + rewrite bool_decide_eq_false_2; [done|]. by intros [|].
  - induction gs as [|g gs IH]; [by rewrite bool_decide_eq_true_2; auto|].
    cbn [scan_graphs]. rewrite scan_ks_invalid by done.
    destruct v_k as [|kv ks].
    + rewrite bool_decide_eq_true_2 in * by auto. cbn. by rewrite IH.
    + rewrite bool_decide_eq_false_2; [done|]. by intros [|].
Qed.

(** ** The decision pass of the structured-log family *)

Lemma decide_task_overwrite t d :
  decide_task true t d
  = (set_files (delete (old_target_path t)
                  (delete (fbs_target_path t) (files d))) d,
     EXECUTE).
Proof.
  unfold decide_task.
  assert (∀ p e, (if exists_file e p then remove_file p e else e)
                 = set_files (delete p (files e)) e) as Hrm.
  { intros p e. destruct (exists_file e p) eqn:Hp; [done|].
    apply exists_file_false in Hp. rewrite delete_id by done.
    by destruct e. }
  by rewrite !Hrm.
Qed.

Lemma decide_tasks_cons overwrite t ts d :
  decide_tasks overwrite (t :: ts) d
  = ((decide_tasks overwrite ts (decide_task overwrite t d).1).1,
     (t, (decide_task overwrite t d).2)
       :: (decide_tasks overwrite ts (decide_task overwrite t d).1).2).
Proof.
  cbn [decide_tasks]. destruct (decide_task overwrite t d) as [d1 dec].
  cbn [fst snd]. by destruct (decide_tasks overwrite ts d1).
Qed.

Lemma decide_tasks_fst overwrite ts d :
  (decide_tasks overwrite ts d).2.*1 = ts.
Proof.
  revert d. induction ts as [|t ts IH]; intros d; [done|].
  rewrite decide_tasks_cons. cbn [snd]. by rewrite fmap_cons, IH.
Qed.

(** X4: with overwrite enabled the decision pass decides EXECUTE for every
    Task, so the batch is the whole task list in its order; afterwards no
    canonical or legacy artifact of any Task is left, every other file is as
    it was, and tables and directories are untouched. *)
Theorem overwrite_pass_clears_artifacts ts d :
  (decide_tasks true ts d).2 = (λ t, (t, EXECUTE)) <$> ts
  ∧ to_execute (decide_tasks true ts d).2 = ts
  ∧ (∀ p, files (decide_tasks true ts d).1 !! p
          = if bool_decide (p ∈ target_paths ts) then None
            else files d !! p)
  ∧ tables (decide_tasks true ts d).1 = tables d
  ∧ dirs (decide_tasks true ts d).1 = dirs d.
Proof.
  revert d. induction ts as [|t ts IH]; intros d.
  { split_and!; try done. }
  rewrite decide_tasks_cons, decide_task_overwrite. cbn [fst snd].
  destruct (IH (set_files (delete (old_target_path t)
                             (delete (fbs_target_path t) (files d))) d))
    as (Hdecs & Hexec & Hfiles & Htables & Hdirs).
  split_and!.
  - by rewrite Hdecs.
  - unfold to_execute in *. rewrite filter_cons_True by done.
    by rewrite fmap_cons, Hexec.
  - intros p. rewrite Hfiles. unfold target_paths. rewrite bind_cons.
    fold (target_paths ts).
    destruct (decide (p ∈ target_paths ts)) as [Hin|Hout].
    + rewrite !bool_decide_eq_true_2; [done| |done].
      apply elem_of_app. by right.
    + rewrite (bool_decide_eq_false_2 _ Hout). cbn [files set_files].
      destruct (decide (p = old_target_path t)) as [->|Hold].
      { rewrite lookup_delete_eq, bool_decide_eq_true_2; [done|].
        apply elem_of_app. left. right. by left. }
      rewrite lookup_delete_ne by done.
      destruct (decide (p = fbs_target_path t)) as [->|Hnew].
      { rewrite lookup_delete_eq, bool_decide_eq_true_2; [done|].
        apply elem_of_app. left. by left. }
      rewrite lookup_delete_ne by done.
      rewrite bool_decide_eq_false_2; [done|].
      rewrite elem_of_app, !elem_of_cons, elem_of_nil. tauto.
  - by rewrite Htables.
  - by rewrite Hdirs.
Qed.

Lemma decide_task_keeps t d :
  (∀ p f, files d !! p = Some f →
          ∃ p', files (decide_task false t d).1 !! p' = Some f)
  ∧ size (files (decide_task false t d).1) = size (files d)
  ∧ tables (decide_task false t d).1 = tables d
  ∧ dirs (decide_task false t d).1 = dirs d.
Proof.
  unfold decide_task.
  destruct (exists_file d (fbs_target_path t)) eqn:Hc; [by eauto|].
  destruct (exists_file d (old_target_path t)) eqn:Hl; [|by eauto].
  apply exists_file_false in Hc. apply exists_file_true in Hl as [f Hl].
  unfold rename_file. rewrite Hl. cbn [fst files set_files tables dirs].
  split_and!; [|  |done..].
  - intros p g Hp.
    destruct (decide (p = old_target_path t)) as [->|Hne].
    + exists (fbs_target_path t). rewrite lookup_insert_eq. congruence.
    + exists p. rewrite lookup_insert_ne by congruence.
      by rewrite lookup_delete_ne.
  - rewrite map_size_insert_None.
    + rewrite map_size_delete_Some by eauto.
      assert (size (files d) ≠ 0%nat); [|lia].
      intros Hempty%map_size_empty_inv. by rewrite Hempty in Hl.
    + destruct (decide (old_target_path t = fbs_target_path t)) as [Heq|Hne].
      * rewrite Heq. apply lookup_delete_eq.
      * by rewrite lookup_delete_ne.
Qed.

(** X5: with overwrite disabled the decision pass loses nothing: every
    content on the disk before is on the disk after, under its old name or
    under the canonical name it was moved to, the number of files is the
    same, tables and directories are untouched, and the batch lists Tasks
    of the task list in their order. *)
Theorem resume_pass_keeps_contents ts d :
  (∀ p f, files d !! p = Some f →
          ∃ p', files (decide_tasks false ts d).1 !! p' = Some f)
  ∧ size (files (decide_tasks false ts d).1) = size (files d)
  ∧ tables (decide_tasks false ts d).1 = tables d
  ∧ dirs (decide_tasks false ts d).1 = dirs d
  ∧ to_execute (decide_tasks false ts d).2 `sublist_of` ts.
Proof.
  split_and!.
  - revert d. induction ts as [|t ts IH]; intros d p f Hp; [by eauto|].
    rewrite decide_tasks_cons. cbn [fst].
    destruct (decide_task_keeps t d) as (Hkeep & _).
    destruct (Hkeep p f Hp) as (p1 & Hp1). by eapply IH.
  - revert d. induction ts as [|t ts IH]; intros d; [done|].
    rewrite decide_tasks_cons. cbn [fst]. rewrite IH.
    by destruct (decide_task_keeps t d) as (_ & -> & _).
  - revert d. induction ts as [|t ts IH]; intros d; [done|].
    rewrite decide_tasks_cons. cbn [fst]. rewrite IH.
    by destruct (decide_task_keeps t d) as (_ & _ & -> & _).
  - revert d. induction ts as [|t ts IH]; intros d; [done|].
    rewrite decide_tasks_cons. cbn [fst]. rewrite IH.
    by destruct (decide_task_keeps t d) as (_ & _ & _ & ->).
  - unfold to_execute.
    rewrite <-(decide_tasks_fst false ts d) at 2.
    apply fmap_sublist, sublist_filter.
Qed.

Lemma expand_graphs_heistream folder ordering hyper kv gs ts :
  expand_graphs true folder ordering hyper kv gs = Some ts →
  Forall (λ t, old_target_path t = fbs_target_path t) ts.
Proof.
  revert ts. induction gs as [|g gs IH]; intros ts; simpl.
  { intros [= <-]. constructor. }
  destruct (make_task true folder ordering hyper kv g) as [t|] eqn:Ht;
    [|done]. simpl.
  destruct (expand_graphs true folder ordering hyper kv gs) as [rest|];
    [|done]. simpl.
  intros [= <-]. constructor; [|by apply IH].
  unfold make_task in Ht.
  destruct (get_graph_name g ordering); [|done]. simpl in Ht.
  destruct (task_stream_buffer _ _ _); [|done]. by simplify_eq/=.
Qed.

Lemma decide_tasks_same_names ts d :
  Forall (λ t, old_target_path t = fbs_target_path t) ts →
  (decide_tasks false ts d).1 = d.
Proof.
  induction 1 as [|t ts Ht _ IH]; [done|].
  rewrite decide_tasks_cons. cbn [fst].
  assert ((decide_task false t d).1 = d) as ->; [|done].
  unfold decide_task. rewrite Ht.
  by destruct (exists_file d (fbs_target_path t)).
Qed.

(** X6: the heistream family has no legacy file name: every Task it
    expands has its legacy path equal to its canonical path, so its decision
    pass with overwrite disabled leaves the disk exactly as it found it. *)
Theorem heistream_pass_leaves_disk folder ordering hyper v_k gs ts d :
  expand_tasks true folder ordering hyper v_k gs = Some ts →
  Forall (λ t, old_target_path t = fbs_target_path t) ts
  ∧ (decide_tasks false ts d).1 = d.
Proof.
  intros Hts.
  assert (Forall (λ t, old_target_path t = fbs_target_path t) ts) as Hsame.
  { revert ts Hts. induction v_k as [|kv ks IH]; intros ts; simpl.
    { intros [= <-]. constructor. }
    destruct (expand_graphs true folder ordering hyper kv gs) as [row|]
      eqn:Hrow; [|done]. simpl.
    destruct (expand_tasks true folder ordering hyper ks gs) as [rest|];
      [|done]. simpl.
    intros [= <-]. apply Forall_app. split; [|by apply IH].
    by eapply expand_graphs_heistream. }
  split; [done|]. by apply decide_tasks_same_names.
Qed.

(** ** The converter of the structured-log family *)

Lemma parse_flatbuffer_file_result file_path alg set_name d r :
  parse_flatbuffer_file file_path alg set_name d = Some (Some r) →
  ∃ set_cfg n,
    SET_CONFIG !! set_name = Some set_cfg
    ∧ k r ∈ cfg_k set_cfg
    ∧ alg_name r = alg
    ∧ edge_cut r = PInt n
    ∧ (success r = "1"%string ↔ n ≠ 0).
Proof.
  unfold parse_flatbuffer_file. intros Hparse.
  destruct (files d !! file_path) as [[buf|]|]; [|done..].
  destruct (GetRootAsPartitionLog buf) as [log|]; [|done]. simpl in Hparse.
  destruct (log_GraphMetadata log) as [meta|]; [|done]. simpl in Hparse.
  destruct (match Filename meta with
            | Some decoded => decoded
            | None => Some EmptyString
            end) as [name|]; [|done]. simpl in Hparse.
  destruct (log_PartitionConfiguration log) as [config|]; [|done].
  simpl in Hparse.
  destruct (SET_CONFIG !! set_name) as [set_cfg|]; [|done]. simpl in Hparse.
  destruct (int_in (K config) (cfg_k set_cfg)) eqn:Hin; [|done].
  simpl in Hparse.
  destruct (log_Runtime_TotalTime log); [|done]. simpl in Hparse.
  destruct (log_MemoryConsumption_MaxRss log); [|done]. simpl in Hparse.
  destruct (log_Metrics_EdgeCut log) as [cut|]; [|done]. simpl in Hparse.
  destruct (Z.eqb (NumEdges meta) 0); [done|].
  injection Hparse as <-. exists set_cfg, cut.
  split_and!; [done|by apply int_in_true|done..|].
  cbn [success edge_cut produce_result py_str].
  rewrite flag_of_text. by rewrite pretty_Z_zero.
Qed.

(** X7: every row the converter collects is either the all-zero failed
    record of its Task or a row read from the artifact, and then its
    partition count is one of the list configured for the graph set, its
    algorithm name is the caller's, and it is marked successful exactly when
    its integer edge-cut is not zero. *)
Theorem converter_rows_are_in_scope alg set_name d t :
  extract_log alg set_name d t
  = produce_failed_result alg (raw_graph_name t) (task_k t)
  ∨ ∃ set_cfg n,
      SET_CONFIG !! set_name = Some set_cfg
      ∧ k (extract_log alg set_name d t) ∈ cfg_k set_cfg
      ∧ alg_name (extract_log alg set_name d t) = alg
      ∧ edge_cut (extract_log alg set_name d t) = PInt n
      ∧ (success (extract_log alg set_name d t) = "1"%string ↔ n ≠ 0).
Proof.
  unfold extract_log.
  destruct (exists_file d (fbs_target_path t)); [|by left].
  destruct (parse_flatbuffer_file (fbs_target_path t) alg set_name d)
    as [[r|]|] eqn:Hparse; [|by left..].
  right. by eapply parse_flatbuffer_file_result.
Qed.

(** X8: the converter indexes [SET_CONFIG] by the set name, without the
    fall-back to "default" the runner uses: for a graph set that has no
    entry of its own the runner expands Tasks over the default list, and the
    converter gives every one of them the failed record, whatever its
    artifact holds. *)
Theorem set_without_entry_gives_failed_rows alg set_name d t :
  SET_CONFIG !! set_name = None →
  cfg_k (set_config_or_default set_name) = [4; 8; 16; 32; 64; 128; 256]
  ∧ extract_log alg set_name d t
    = produce_failed_result alg (raw_graph_name t) (task_k t).
Proof.
  intros Hset. split.
  { unfold set_config_or_default. by rewrite Hset. }
  unfold extract_log.
  destruct (exists_file d (fbs_target_path t)); [|done].
  destruct (parse_flatbuffer_file (fbs_target_path t) alg set_name d)
    as [[r|]|] eqn:Hparse; [|done..].
  apply parse_flatbuffer_file_result in Hparse as (set_cfg & n & Hsome & _).
  congruence.
Qed.

(** X9: a log that decodes completely and is in scope, but records a graph
    of zero edges, makes the division of the edge-cut ratio raise, and the
    Task gets the failed record. *)
Theorem zero_edges_gives_failed_row alg set_name d t buf log meta config
    set_cfg :
  files d !! fbs_target_path t = Some (Text buf) →
  GetRootAsPartitionLog buf = Some log →
  log_GraphMetadata log = Some meta →
  log_PartitionConfiguration log = Some config →
  SET_CONFIG !! set_name = Some set_cfg →
  K config ∈ cfg_k set_cfg →
  NumEdges meta = 0 →
  parse_flatbuffer_file (fbs_target_path t) alg set_name d = None
  ∧ extract_log alg set_name d t
    = produce_failed_result alg (raw_graph_name t) (task_k t).
Proof.
  intros Hfile Hlog Hmeta Hconfig Hset Hk Hzero.
  assert (parse_flatbuffer_file (fbs_target_path t) alg set_name d = None)
    as Hparse.
  { unfold parse_flatbuffer_file. rewrite Hfile, Hlog. simpl.
    rewrite Hmeta. simpl.
    destruct (match Filename meta with
              | Some decoded => decoded
              | None => Some EmptyString
              end); [|done]. simpl.
    rewrite Hconfig. simpl. rewrite Hset. simpl.
    apply int_in_true in Hk. rewrite Hk. simpl.
    destruct (log_Runtime_TotalTime log); [|done]. simpl.
    destruct (log_MemoryConsumption_MaxRss log); [|done]. simpl.
    destruct (log_Metrics_EdgeCut log); [|done]. simpl.
    by rewrite Hzero. }
  split; [done|]. unfold extract_log. rewrite Hparse.
  by destruct (exists_file _ _).
Qed.

(** X10: [convert_fbs_to_csv.main] never touches a file other than its
    table.  When the artifact directory exists it writes a table with
    exactly one row per Task, sorted by graph and then by partition count;
    when the directory does not exist it returns without writing a
    table. *)
Theorem converter_writes_one_row_per_task tasklist alg set_name ordering
    max_cores d :
  let fbs_dir := get_fbs_output_dir set_name ordering alg max_cores in
  let pdir := get_processed_output_dir set_name ordering max_cores in
  let after := convert_main tasklist alg set_name ordering max_cores d in
  files after = files d
  ∧ (fbs_dir ∈ dirs d →
     ∃ rows,
       tables after !! path_join pdir (alg +:+ ".csv")
       = Some (render_row <$> rows)
       ∧ rows ≡ₚ extract_log alg set_name (makedirs pdir d) <$> tasklist
       ∧ length rows = length tasklist
       ∧ StronglySorted graph_k_le rows)
  ∧ (fbs_dir ∉ dirs d → fbs_dir ≠ pdir → tables after = tables d).
Proof.
  intros fbs_dir pdir after. subst after. unfold convert_main.
  fold fbs_dir pdir. unfold exists_dir.
  split_and!.
  - by destruct (negb _).
  - intros Hdir. rewrite bool_decide_eq_true_2.
    2:{ cbn [dirs makedirs]. apply elem_of_union. by right. }
    cbn [negb]. eexists. split_and!.
    + unfold write_table. cbn [tables set_tables].
      by rewrite lookup_insert_eq.
    + unfold convert_rows. by rewrite !py_sort_Permutation.
    + unfold convert_rows.
      by rewrite !(Permutation_length (py_sort_Permutation _ _)),
        length_fmap.
    + apply convert_rows_sorted.
  - intros Hdir Hne. rewrite bool_decide_eq_false_2; [done|].
    cbn [dirs makedirs]. rewrite elem_of_union, elem_of_singleton. tauto.
Qed.

(** ** The scan of the text family *)

Lemma load_existing_bad_line v_k csv line :
  line ∈ csv → py_int (c_k line) = None → load_existing v_k csv = None.
Proof.
  induction csv as [|l csv IH]; intros Hin Hbad.
  { by apply elem_of_nil in Hin. }
  cbn [load_existing]. apply elem_of_cons in Hin as [<-|Hin].
  - by rewrite Hbad.
  - destruct (py_int (c_k l)); [|done]. cbn. by rewrite IH.
Qed.

(** X11: with overwrite disabled, a pre-existing table with a line whose
    partition count is not an integer aborts the run of the text family
    while the table is loaded: no pair is visited, nothing is executed and
    nothing is written. *)
Theorem bad_partition_count_aborts_run run_parallel_commands quick_test
    set_name ordering alg max_cores v_k gs d csv line :
  tables d !! cuttana_csv_path set_name ordering alg max_cores = Some csv →
  line ∈ csv →
  py_int (c_k line) = None →
  cuttana_parallel_body run_parallel_commands false quick_test set_name
    ordering alg max_cores v_k gs d = None.
Proof.
  intros Htable Hline Hbad. unfold cuttana_parallel_body, open_table.
  change (tables (makedirs ?p d)) with (tables d). rewrite Htable.
  cbn [negb]. by rewrite (load_existing_bad_line _ csv line).
Qed.

Lemma visit_all_overwrite alg dir pairs st :
  visit_all true alg dir pairs st
  = (Scan (sc_disk st) (sc_rows st)
          (sc_tasks st
             ++ ((λ q, {| ti_graph_name := q.1; ti_k := q.2;
                          ti_temp_file := temp_result_path dir q.1 q.2 |})
                   <$> pairs)),
     (λ q, (q, EXECUTE)) <$> pairs).
Proof.
  revert st. induction pairs as [|[raw kv] pairs IH]; intros st.
  { simpl. rewrite app_nil_r. by destruct st. }
  cbn [visit_all]. unfold visit_pair. cbn [negb andb].
  rewrite andb_false_r. rewrite IH. cbn [sc_disk sc_rows sc_tasks].
  by rewrite <-app_assoc.
Qed.

(** X12: with overwrite enabled the scan of the text family decides
    EXECUTE for every pair it meets, in order, reads and deletes no temp
    file, and keeps the rows it started with. *)
Theorem overwrite_scan_executes_every_pair alg dir ordering sfx gs v_k st :
  ordering_suffix ordering = Some sfx →
  ∃ st',
    scan_graphs true alg dir ordering gs v_k st
    = Some (st', (λ q, (q, EXECUTE))
                   <$> graph_major ((λ g, g +:+ sfx) <$> gs) v_k)
    ∧ sc_disk st' = sc_disk st
    ∧ sc_rows st' = sc_rows st
    ∧ task_pair <$> sc_tasks st'
      = (task_pair <$> sc_tasks st)
          ++ graph_major ((λ g, g +:+ sfx) <$> gs) v_k.
Proof.
  intros Hsfx. rewrite (scan_graphs_flat _ _ _ _ sfx) by done.
  rewrite visit_all_overwrite. eexists. split; [done|].
  cbn [sc_disk sc_rows sc_tasks]. split_and!; [done..|].
  rewrite fmap_app. f_equal. rewrite <-list_fmap_compose.
  rewrite <-(list_fmap_id (graph_major _ _)) at 2.
  apply list_fmap_ext. by intros ? [??].
Qed.

Lemma check_temp_file_disk alg raw kv p st q text :
  files (sc_disk st) !! q = Some (Text text) →
  (4 ≤ length (split (strip text)))%nat →
  files (sc_disk (check_temp_file alg raw kv p st).1) !! q
  = Some (Text text).
Proof.
  intros Hq Hlong. unfold check_temp_file.
  destruct (files (sc_disk st) !! p) as [[content|]|] eqn:Hp; [| |done].
  - destruct (negb _) eqn:Hne.
    + destruct (split (strip content)) as [|? [|? [|? [|? ?]]]] eqn:Htok;
        try done; cbn [fst sc_disk remove_file files set_files];
        (destruct (decide (q = p)) as [->|?];
         [|by rewrite lookup_delete_ne]);
        rewrite Hp in Hq; simplify_eq; rewrite Htok in Hlong;
        simpl in Hlong; lia.
    + cbn [fst sc_disk remove_file files set_files].
      destruct (decide (q = p)) as [->|?]; [|by rewrite lookup_delete_ne].
      rewrite Hp in Hq. simplify_eq.
      apply negb_false_iff, String.eqb_eq in Hne. rewrite Hne in Hlong.
      simpl in Hlong. lia.
  - cbn [fst sc_disk remove_file files set_files].
    destruct (decide (q = p)) as [->|?]; [|by rewrite lookup_delete_ne].
    rewrite Hp in Hq. done.
Qed.

Lemma check_temp_file_only_deletes alg raw kv p st q f :
  files (sc_disk (check_temp_file alg raw kv p st).1) !! q = Some f →
  files (sc_disk st) !! q = Some f.
Proof.
  unfold check_temp_file.
  destruct (files (sc_disk st) !! p) as [[content|]|]; [| |done].
  - destruct (negb _).
    + destruct (split (strip content)) as [|? [|? [|? [|? ?]]]];
        try done; cbn [fst sc_disk remove_file files set_files];
        by intros [_ ?]%lookup_delete_Some.
    + cbn [fst sc_disk remove_file files set_files].
      by intros [_ ?]%lookup_delete_Some.
  - cbn [fst sc_disk remove_file files set_files].
    by intros [_ ?]%lookup_delete_Some.
Qed.

Lemma check_temp_file_dirs alg raw kv p st :
  dirs (sc_disk (check_temp_file alg raw kv p st).1) = dirs (sc_disk st).
Proof.
  unfold check_temp_file.
  destruct (files (sc_disk st) !! p) as [[content|]|]; [| |done].
  - destruct (negb _); [|done].
    by destruct (split (strip content)) as [|? [|? [|? [|? ?]]]].
  - done.
Qed.

Lemma visit_pair_disk overwrite alg dir raw kv st :
  let after := sc_disk (visit_pair overwrite alg dir raw kv st).1 in
  (∀ q f, files after !! q = Some f → files (sc_disk st) !! q = Some f)
  ∧ (∀ q text, files (sc_disk st) !! q = Some (Text text) →
               (4 ≤ length (split (strip text)))%nat →
               files after !! q = Some (Text text))
  ∧ dirs after = dirs (sc_disk st).
Proof.
  unfold visit_pair. generalize (temp_result_path dir raw kv). intros p.
  destruct (negb overwrite && in_rows (sc_rows st) raw kv); [done|].
  destruct (exists_file (sc_disk st) p && negb overwrite); [|done].
  pose proof (check_temp_file_only_deletes alg raw kv p st) as Hdel.
  pose proof (check_temp_file_disk alg raw kv p st) as Hkeep.
  pose proof (check_temp_file_dirs alg raw kv p st) as Hdirs.
  destruct (check_temp_file alg raw kv p st) as [st1 [|]]; cbn [fst] in *;
    split_and!; eauto.
Qed.

(** X13: the scan of the text family never creates or changes a file: a
    file on the disk after the scan was there before with the same content;
    a text file with at least four tokens is never deleted; directories are
    untouched. *)
Theorem scan_only_deletes_unusable_files overwrite alg dir pairs st :
  let after := sc_disk (visit_all overwrite alg dir pairs st).1 in
  (∀ q f, files after !! q = Some f → files (sc_disk st) !! q = Some f)
  ∧ (∀ q text, files (sc_disk st) !! q = Some (Text text) →
               (4 ≤ length (split (strip text)))%nat →
               files after !! q = Some (Text text))
  ∧ dirs after = dirs (sc_disk st).
Proof.
  cbv zeta. revert st. induction pairs as [|[raw kv] pairs IH]; intros st.
  { done. }
  cbn [visit_all].
  pose proof (visit_pair_disk overwrite alg dir raw kv st) as Hvisit.
  cbv zeta in Hvisit.
  destruct (visit_pair overwrite alg dir raw kv st) as [st1 dec].
  specialize (IH st1).
  destruct (visit_all overwrite alg dir pairs st1) as [st2 decs].
  cbn [fst] in *.
  destruct Hvisit as (Hdel1 & Hkeep1 & Hdirs1).
  destruct IH as (Hdel2 & Hkeep2 & Hdirs2).
  split_and!; [eauto|eauto|congruence].
Qed.

Lemma visit_all_tasks alg dir pairs st :
  task_pair <$> sc_tasks (visit_all false alg dir pairs st).1
  = (task_pair <$> sc_tasks st) ++ executed (visit_all false alg dir pairs st).2.
Proof.
  revert st. induction pairs as [|[raw kv] pairs IH]; intros st.
  { simpl. by rewrite app_nil_r. }
  cbn [visit_all].
  pose proof (visit_pair_tasks false alg dir raw kv st) as Hv.
  destruct (visit_pair false alg dir raw kv st) as [st1 dec].
  specialize (IH st1).
  destruct (visit_all false alg dir pairs st1) as [st2 decs].
  cbn [fst snd] in *. rewrite IH, Hv, <-app_assoc. f_equal.
  unfold executed. rewrite !filter_cons. cbn [snd].
  by destruct (decide (dec = EXECUTE)).
Qed.

(** X14: with overwrite disabled, a pair that has a row when the scan
    starts is never executed, pairs that are executed have no row, if the
    pairs are distinct none is executed twice, and every visited pair ends
    up with a row or in the batch. *)
Theorem listed_pairs_are_never_executed alg dir pairs st :
  let res := visit_all false alg dir pairs st in
  (∀ q, q ∈ row_key <$> sc_rows st → q ∉ executed res.2)
  ∧ (∀ q, q ∈ executed res.2 → q ∈ pairs)
  ∧ (NoDup pairs → NoDup (executed res.2))
  ∧ (∀ q, q ∈ pairs →
          q ∈ (row_key <$> sc_rows res.1) ++ executed res.2).
Proof.
  cbv zeta.
  pose proof (visit_all_spec alg dir pairs st) as Hspec.
  pose proof (visit_all_tasks alg dir pairs st) as Htasks.
  cbv zeta in Hspec.
  destruct (visit_all false alg dir pairs st) as [st' decs].
  cbn [fst snd] in *.
  destruct Hspec as (_ & adopted & batched & Hrows & Hbatch & Hnew & Hcov
                     & Hnodup).
  rewrite Hbatch, fmap_app in Htasks. apply app_inv_head in Htasks.
  rewrite <-Htasks. split_and!.
  - intros q Hq Hex. destruct (Hnew q) as [_ Hnot]; [|done].
    apply elem_of_app. by right.
  - intros q Hex. destruct (Hnew q) as [Hin _]; [|done].
    apply elem_of_app. by right.
  - intros Hnd. specialize (Hnodup Hnd).
    by apply NoDup_app in Hnodup as (_ & _ & ?).
  - intros q Hq. specialize (Hcov q Hq).
    rewrite Hrows, fmap_app, <-app_assoc. done.
Qed.

(** ** The extraction of the text family *)

Lemma parse_temp_line_row alg ti d row :
  parse_temp_line alg ti d = Some row →
  ∃ text rt mem ec q rest,
    files d !! ti_temp_file ti = Some (Text text)
    ∧ split (strip (readline text)) = rt :: mem :: ec :: q :: rest
    ∧ row = produce_result alg (ti_graph_name ti) (PStr "0") (ti_k ti)
              (PStr rt) (PStr mem) (PStr ec) (PStr q).
Proof.
  unfold parse_temp_line.
  destruct (files d !! ti_temp_file ti) as [[text|]|]; [|done..].
  destruct (negb _); [|done].
  destruct (split (strip (readline text)))
    as [|rt [|mem [|ec [|q rest]]]] eqn:Htok; try done.
  intros [= <-]. by exists text, rt, mem, ec, q, rest.
Qed.





Lemma split_readline_prefix (text : string) rt mem ec q rest :
  split (strip (readline text)) = rt :: mem :: ec :: q :: rest →
  ∃ rest', split (strip text) = rt :: mem :: ec :: q :: rest'.
Proof.
  rewrite !split_strip. unfold split.
  destruct (split_go_readline None text) as (more & ->).
  intros ->. by exists (rest ++ more).
Qed.

(** X16: the scan reads the whole temp file where the extraction reads its
    first line, and both come to the same row: when the extraction gets a
    row from a temp file, a later scan with overwrite disabled, for a pair
    that has no row yet, skips the Task, leaves the file in place and adopts
    exactly that row. *)
Theorem scan_adopts_what_extraction_read alg dir raw kv st row :
  let p := temp_result_path dir raw kv in
  let ti := {| ti_graph_name := raw; ti_k := kv; ti_temp_file := p |} in
  parse_temp_line alg ti (sc_disk st) = Some row →
  in_rows (sc_rows st) raw kv = false →
  visit_pair false alg dir raw kv st
  = (Scan (sc_disk st) (sc_rows st ++ [row]) (sc_tasks st), SKIP).
Proof.
  intros p ti Hparse Hnew. subst ti.
  apply parse_temp_line_row in Hparse
    as (text & rt & mem & ec & q & rest & Hfile & Htok & ->).
  cbn [ti_graph_name ti_k ti_temp_file] in *.
  destruct (split_readline_prefix _ _ _ _ _ _ Htok) as (rest' & Htok').
  unfold visit_pair. rewrite Hnew. fold p. clearbody p.
  cbn [negb andb]. rewrite andb_true_r.
  assert (exists_file (sc_disk st) p = true) as ->.
  { apply exists_file_true. by rewrite Hfile. }
  unfold check_temp_file. rewrite Hfile.
  destruct (String.eqb_spec (strip text) EmptyString) as [Hempty|_].
  { by rewrite Hempty in Htok'. }
  cbn [negb]. by rewrite Htok'.
Qed.

(** ** The table of the text family *)





Lemma render_loaded_row (r : result) :
  render_row (row_of_csv (render_row r) (k r)) = render_row r.
Proof. done. Qed.

(** X18: a table that is written and loaded again is written back as it
    was: loading the rendered rows succeeds when the partition counts read
    back from their decimal form, keeps exactly the rows whose partition
    count is in the list, in order, and every loaded row holds text only and
    renders to the line it was read from. *)
Theorem table_round_trip v_k rows :
  (∀ r, r ∈ rows → py_int (pretty (k r)) = Some (k r)) →
  ∃ loaded,
    load_existing v_k (render_row <$> rows) = Some loaded
    ∧ render_row <$> loaded
      = render_row <$> filter (λ r, k r ∈ v_k) rows
    ∧ Forall textual loaded.
Proof.
  induction rows as [|r rows IH]; intros Hint.
  { exists []. by split_and!. }
  destruct IH as (loaded & Hload & Hrender & Htext).
  { intros r' Hr'. apply Hint. by right. }
  rewrite fmap_cons. cbn [load_existing].
  change (c_k (render_row r)) with (pretty (k r)).
  rewrite (Hint r) by (by left). cbn [mbind option_bind].
  rewrite Hload. cbn [mbind option_bind]. rewrite filter_cons.
  destruct (int_in (k r) v_k) eqn:Hin.
  - apply int_in_true in Hin. rewrite decide_True by done.
    eexists. split; [done|]. split.
    + by rewrite !fmap_cons, Hrender.
    + apply Forall_cons. split; [|done].
      unfold textual. cbn. split_and!; by eexists.
  - assert (k r ∉ v_k) as Hout.
    { intros Hk%int_in_true. congruence. }
    rewrite decide_False by done. by exists loaded.
Qed.

(** ** Lines of a file: graph sets and command files *)

Lemma lstrip_app_space (w t : string) :
  all_space w = true → lstrip (w +:+ t) = lstrip t.
Proof.
  induction w as [|c w IH]; [done|].
  cbn [all_space]. intros [Hc Hw]%andb_true_iff.
  rewrite string_app_cons. cbn [lstrip]. rewrite Hc. by apply IH.
Qed.

Lemma rstrip_app_space (t w : string) :
  all_space w = true → rstrip (t +:+ w) = rstrip t.
Proof.
  intros Hw. unfold rstrip.
  by rewrite string_rev_app, lstrip_app_space by (by rewrite all_space_rev).
Qed.

(** White space after a text is stripped with it. *)
Lemma strip_app_space (s w : string) :
  all_space w = true → strip (s +:+ w) = strip s.
Proof.
  intros Hw. unfold strip.
  destruct (lstrip_decompose s) as (w0 & Hw0 & Hs).
  destruct (lstrip s) as [|c r] eqn:Hl.
  - rewrite string_app_nil_r in Hs. subst s.
    rewrite <-(string_app_nil_r (w0 +:+ w)), lstrip_app_space; [done|].
    by rewrite all_space_app, Hw0, Hw.
  - assert (lstrip (s +:+ w) = String c r +:+ w) as ->.
    { rewrite Hs at 1. rewrite string_app_assoc, lstrip_app_space by done.
      rewrite string_app_cons. apply lstrip_no_space.
      by eapply lstrip_head. }
    by apply rstrip_app_space.
Qed.

Lemma stripped_lines_elem lines l :
  l ∈ stripped_lines lines
  ↔ l ≠ EmptyString ∧ ∃ raw, raw ∈ lines ∧ l = strip raw.
Proof.
  unfold stripped_lines. rewrite list_elem_of_filter, list_elem_of_fmap.
  split.
  - intros [Hne (raw & -> & Hraw)]. split; [done|]. by exists raw.
  - intros [Hne (raw & Hraw & ->)]. split; [done|]. by exists raw.
Qed.

Lemma file_lines_all_space (text : string) :
  all_space text = true →
  Forall (λ l, all_space l = true) (file_lines text).
Proof.
  induction text as [|c text IH]; [by constructor|].
  cbn [all_space file_lines]. intros [Hc Hs]%andb_true_iff.
  specialize (IH Hs). destruct (Ascii.eqb c "010"%char).
  - apply Forall_cons. split; [|done]. simpl. by rewrite Hc.
  - destruct (file_lines text) as [|l ls].
    + apply Forall_cons. split; [|done]. simpl. by rewrite Hc.
    + apply Forall_cons in IH as [Hl Hls].
      apply Forall_cons. split; [|done]. simpl. by rewrite Hc.
Qed.

Lemma stripped_lines_blank lines :
  Forall (λ l, all_space l = true) lines → stripped_lines lines = [].
Proof.
  unfold stripped_lines. induction 1 as [|l lines Hl _ IH]; [done|].
  rewrite fmap_cons, filter_cons, strip_all_space by done.
  by rewrite decide_False by (by intros []).
Qed.

Lemma file_lines_cons_line (c rest : string) :
  has_line_break c = false →
  file_lines (c +:+ String "010"%char rest)
  = (c +:+ String "010"%char EmptyString) :: file_lines rest.
Proof.
  induction c as [|a c IH]; [done|].
  cbn [has_line_break]. intros [[Hlf _]%orb_false_iff Hc]%orb_false_iff.
  rewrite !string_app_cons. cbn [file_lines]. rewrite Hlf. by rewrite IH.
Qed.

Lemma universal_newlines_cons_line (c rest : string) :
  has_line_break c = false →
  universal_newlines (c +:+ String "010"%char rest)
  = c +:+ String "010"%char (universal_newlines rest).
Proof.
  induction c as [|a c IH]; [done|].
  cbn [has_line_break]. intros [[_ Hcr]%orb_false_iff Hc]%orb_false_iff.
  rewrite !string_app_cons. cbn [universal_newlines]. rewrite Hcr.
  by rewrite IH.
Qed.

Lemma command_file_lines commands :
  Forall (λ c, has_line_break c = false) commands →
  file_lines (universal_newlines (command_file_text commands))
  = (λ c, c +:+ String "010"%char EmptyString) <$> commands.
Proof.
  induction 1 as [|c commands Hc _ IH]; [done|].
  cbn [command_file_text].
  by rewrite universal_newlines_cons_line, file_lines_cons_line, IH.
Qed.

(** X19: the graph identifiers [read_graph_set] returns are the lines of
    the file in order, stripped, without the blank ones: no identifier is
    empty or begins or ends with white space.  A missing file ends the
    process. *)
Theorem graph_set_ids_are_stripped set_name d :
  (files d !! graph_set_path set_name = None →
     read_graph_set set_name d = None)
  ∧ (∀ ids g, read_graph_set set_name d = Some ids → g ∈ ids →
       g ≠ EmptyString ∧ strip g = g ∧ lstrip g = g ∧ rstrip g = g)
  ∧ (∀ text, files d !! graph_set_path set_name = Some (Text text) →
       all_space text = true → read_graph_set set_name d = Some []).
Proof.
  unfold read_graph_set. split_and!.
  - by intros ->.
  - intros ids g Hread Hg.
    destruct (files d !! graph_set_path set_name) as [[text|]|]; [|done..].
    injection Hread as <-.
    apply stripped_lines_elem in Hg as (Hne & raw & _ & ->).
    split_and!; [done|apply strip_idemp| |].
    + unfold strip. apply lstrip_rstrip.
    + unfold strip. apply rstrip_idemp.
  - intros text -> Hblank. f_equal.
    by apply stripped_lines_blank, file_lines_all_space.
Qed.

(** X20: the command file is a faithful carrier for commands without line
    breaks: what [_run_parallel_commands] reads back and hands to GNU
    parallel are the commands in order, each stripped of surrounding white
    space, the blank ones dropped; commands that are already stripped and
    not blank come back unchanged. *)
Theorem command_file_round_trip commands :
  Forall (λ c, has_line_break c = false) commands →
  command_lines commands = stripped_lines commands
  ∧ (Forall (λ c, c ≠ EmptyString ∧ strip c = c) commands →
     command_lines commands = commands).
Proof.
  intros Hclean.
  assert (command_lines commands = stripped_lines commands) as Hlines.
  { unfold command_lines. rewrite command_file_lines by done.
    unfold stripped_lines. f_equal. rewrite <-list_fmap_compose.
    apply list_fmap_ext. intros _ c _. simpl. by apply strip_app_space. }
  split; [done|]. intros Hstripped. rewrite Hlines. clear Hclean Hlines.
  unfold stripped_lines.
  induction Hstripped as [|c commands [Hne Hc] _ IH]; [done|].
  rewrite fmap_cons, filter_cons, Hc, decide_True by done. by rewrite IH.
Qed.

(** No process is started for an empty batch; otherwise GNU parallel
    gets its seven fixed arguments followed by the lines read back from the
    command file, none of which is empty. *)
Lemma parallel_arguments max_jobs commands args :
  (parallel_cmd max_jobs commands = None ↔ commands = [])
  ∧ (parallel_cmd max_jobs commands = Some args →
     take 7 args
     = ["parallel"; "--jobs=" +:+ pretty max_jobs; "--line-buffer"; "--tag";
        "--halt"; "never"; ":::"]%string
     ∧ drop 7 args = command_lines commands
     ∧ Forall (λ a, a ≠ EmptyString) args).
Proof.
  unfold parallel_cmd. destruct commands as [|c commands].
  { split; [done|done]. }
  split; [done|]. intros [= <-]. split_and!; [done..|].
  repeat (apply Forall_cons; split; [done|]).
  apply Forall_forall. unfold command_lines.
  by intros a [? _]%stripped_lines_elem.
Qed.

(** ** Command lines and configurations *)

(** X21: for the twitter graph of the konect sets the command line of the
    text family carries no hyperparameter value of the configuration: its
    hyperparameter arguments are among [-subp 256] and [-dmax 100], a
    [subp] other than 4096 and every other hyperparameter being left out;
    for any other graph or set each hyperparameter gives its two
    arguments. *)
Theorem special_case_hyperparameters set_name raw hyperparam_dict :
  (cuttana_special_case set_name raw = true →
     (∀ a, a ∈ cuttana_hyper_args set_name raw hyperparam_dict →
           a ∈ ["-subp"; "256"; "-dmax"; "100"]%string)
     ∧ (∀ name value, (name, value) ∈ hyperparam_dict →
          name ≠ "dmax"%string →
          (name, value) ≠ ("subp", "4096")%string →
          cuttana_hyper_args set_name raw [(name, value)] = []))
  ∧ (cuttana_special_case set_name raw = false →
     length (cuttana_hyper_args set_name raw hyperparam_dict)
     = (2 * length hyperparam_dict)%nat).
Proof.
  unfold cuttana_hyper_args.
  split; [intros Hcase; split|intros Hcase]; rewrite Hcase.
  - induction hyperparam_dict as [|[name value] rest IH]; intros a.
    { simpl. by intros ?%elem_of_nil. }
    cbn [flat_map]. rewrite elem_of_app.
    intros [Hhere|Hlater]; [|by apply IH].
    destruct (String.eqb_spec name "subp") as [->|_]; cbn [andb] in Hhere.
    + destruct (String.eqb value "4096"); cbn in Hhere.
      * apply elem_of_cons in Hhere as [->|Hhere]; [by left|].
        apply list_elem_of_singleton in Hhere as ->. right; by left.
      * by apply elem_of_nil in Hhere.
    + destruct (String.eqb_spec name "dmax") as [->|_].
      * apply elem_of_cons in Hhere as [->|Hhere]; [do 2 right; by left|].
        apply list_elem_of_singleton in Hhere as ->. do 3 right; by left.
      * by apply elem_of_nil in Hhere.
  - intros name value _ Hdmax Hsubp. cbn [flat_map]. rewrite app_nil_r.
    destruct (String.eqb_spec name "subp") as [->|_]; cbn [andb].
    + destruct (String.eqb_spec value "4096") as [->|_]; [done|].
      by destruct (String.eqb_spec "subp" "dmax").
    + by destruct (String.eqb_spec name "dmax").
  - induction hyperparam_dict as [|[name value] rest IH]; [done|].
    cbn [flat_map]. rewrite length_app, IH. simpl. lia.
Qed.

Lemma dict_zip_foldl_notin names values (m : gmap string string) name :
  name ∉ names →
  foldl (λ m kv, <[kv.1 := kv.2]> m) m (zip names values) !! name
  = m !! name.
Proof.
  revert values m. induction names as [|n ns IH]; intros values m Hnot.
  { done. }
  apply not_elem_of_cons in Hnot as [Hne Hnot].
  destruct values as [|v vs]; [done|].
  cbn [zip zip_with foldl fst snd]. rewrite IH by done.
  by rewrite lookup_insert_ne.
Qed.

Lemma dict_zip_foldl_lookup names values (m : gmap string string) i name :
  NoDup names → names !! i = Some name →
  foldl (λ m kv, <[kv.1 := kv.2]> m) m (zip names values) !! name
  = match values !! i with Some v => Some v | None => m !! name end.
Proof.
  intros Hnd. revert values m i.
  induction Hnd as [|n ns Hfresh Hnd IH]; intros values m i Hi.
  { done. }
  destruct values as [|v vs]; [done|].
  cbn [zip zip_with foldl fst snd]. destruct i as [|j].
  - injection Hi as <-. rewrite dict_zip_foldl_notin by done.
    by rewrite lookup_insert_eq.
  - cbn in Hi. rewrite (IH _ _ j) by done. cbn.
    destruct (vs !! j); [done|].
    rewrite lookup_insert_ne; [done|].
    intros ->. apply Hfresh. by eapply list_elem_of_lookup_2.
Qed.

Lemma dict_zip_foldl_dom names values (m : gmap string string) name :
  is_Some (foldl (λ m kv, <[kv.1 := kv.2]> m) m (zip names values) !! name) →
  is_Some (m !! name) ∨ name ∈ names.
Proof.
  revert values m. induction names as [|n ns IH]; intros values m.
  { by left. }
  destruct values as [|v vs]; [by left|].
  cbn [zip zip_with foldl fst snd]. intros [Hm|Hin]%IH.
  - destruct (decide (n = name)) as [->|Hne]; [right; by left|].
    left. by rewrite lookup_insert_ne in Hm.
  - right. by right.
Qed.

Lemma configuration_runs_elem get_abbr algo hyp_params param_dict to_run inv :
  inv ∈ (configuration_runs get_abbr algo hyp_params param_dict to_run).1 →
  ∃ conf,
    conf ∈ to_run
    ∧ get_algo_name_new get_abbr algo conf hyp_params param_dict
      = Some (Some (inv_alg_name inv))
    ∧ inv_hyperparam_dict inv = dict_zip (hyp_params.*1) (split conf).
Proof.
  induction to_run as [|conf rest IH]; cbn [configuration_runs].
  { by intros ?%elem_of_nil. }
  destruct (get_algo_name_new get_abbr algo conf hyp_params param_dict)
    as [[name|]|] eqn:Hname.
  - destruct (configuration_runs get_abbr algo hyp_params param_dict rest)
      as [runs finished]. cbn [fst] in *.
    intros [->|Hin]%elem_of_cons.
    + exists conf. split_and!; [by left|done..].
    + destruct (IH Hin) as (conf' & ? & ? & ?). exists conf'.
      split_and!; [by right|done..].
  - intros Hin. destruct (IH Hin) as (conf' & ? & ? & ?). exists conf'.
    split_and!; [by right|done..].
  - by intros ?%elem_of_nil.
Qed.

(** X22: a call of [runner.run] is made only for a configuration line that
    has a value for every hyperparameter, and the dictionary it passes binds
    exactly the hyperparameter names, the i-th name to the i-th token of the
    line. *)
Theorem invocations_bind_every_hyperparameter get_abbr algo hyp_params
    param_dict to_run inv :
  NoDup (hyp_params.*1) →
  inv ∈ (configuration_runs get_abbr algo hyp_params param_dict to_run).1 →
  ∃ conf,
    conf ∈ to_run
    ∧ get_algo_name_new get_abbr algo conf hyp_params param_dict
      = Some (Some (inv_alg_name inv))
    ∧ (length hyp_params ≤ length (split conf))%nat
    ∧ (∀ i name, hyp_params.*1 !! i = Some name →
         ∃ v, split conf !! i = Some v
              ∧ inv_hyperparam_dict inv !! name = Some v)
    ∧ (∀ name, is_Some (inv_hyperparam_dict inv !! name) →
         name ∈ hyp_params.*1).
Proof.
  intros Hnd Hinv.
  apply configuration_runs_elem in Hinv as (conf & Hconf & Hname & Hdict).
  exists conf. rewrite Hdict.
  assert (length hyp_params ≤ length (split conf))%nat as Hlen.
  { unfold get_algo_name_new in Hname. rewrite length_fmap in Hname.
    destruct (Nat.ltb_spec (length (split conf)) (length hyp_params));
      [done|lia]. }
  split_and!; [done..| |].
  - intros i name Hi.
    assert (i < length (split conf))%nat as Hlt.
    { apply lookup_lt_Some in Hi. rewrite length_fmap in Hi. lia. }
    apply lookup_lt_is_Some_2 in Hlt as [v Hv]. exists v. split; [done|].
    unfold dict_zip. rewrite (dict_zip_foldl_lookup _ _ _ i) by done.
    by rewrite Hv.
  - intros name [Hempty|Hin]%dict_zip_foldl_dom; [|done].
    rewrite lookup_empty in Hempty. by destruct Hempty.
Qed.

Lemma hyper_parts_take get_abbr hyp_params param_values :
  hyper_parts get_abbr hyp_params param_values
  = hyper_parts get_abbr hyp_params (take (length hyp_params) param_values).
Proof.
  revert param_values.
  induction hyp_params as [|[key prefix] hs IH]; intros vs; [done|].
  destruct vs as [|v vs]; [done|]. cbn [length take hyper_parts].
  by rewrite IH.
Qed.

Lemma zip_take_r {A B} (names : list A) (values : list B) :
  zip names values = zip names (take (length names) values).
Proof.
  revert values. induction names as [|n ns IH]; intros values; [done|].
  destruct values as [|v vs]; [done|]. cbn. f_equal. apply IH.
Qed.

Lemma take_length_ltb {A} n (a b : list A) :
  take n a = take n b → (length a <? n)%nat = (length b <? n)%nat.
Proof.
  intros Heq. apply (f_equal length) in Heq. rewrite !length_take in Heq.
  destruct (Nat.ltb_spec (length a) n), (Nat.ltb_spec (length b) n);
    [done|lia|lia|done].
Qed.

(** X23: only the leading tokens of a configuration line count, one per
    hyperparameter: two lines that agree on them get the same algorithm
    name, hence the same output files, and the same hyperparameter
    dictionary, whatever follows. *)
Theorem surplus_tokens_are_ignored get_abbr algo conf conf' hyp_params
    param_dict :
  take (length hyp_params) (split conf)
  = take (length hyp_params) (split conf') →
  get_algo_name_new get_abbr algo conf hyp_params param_dict
  = get_algo_name_new get_abbr algo conf' hyp_params param_dict
  ∧ dict_zip (hyp_params.*1) (split conf)
    = dict_zip (hyp_params.*1) (split conf').
Proof.
  intros Heq. split.
  - unfold get_algo_name_new. rewrite length_fmap.
    rewrite (take_length_ltb _ _ _ Heq).
    rewrite (hyper_parts_take _ _ (split conf)), Heq.
    by rewrite <-hyper_parts_take.
  - unfold dict_zip.
    rewrite (zip_take_r _ (split conf)), (zip_take_r _ (split conf')).
    by rewrite length_fmap, Heq.
Qed.

(** ** A whole run of the structured-log family *)

(** X24: a full run of the structured-log family does not merge: whatever
    table was there, the run replaces it by one with exactly one row per
    Task of this run, [len(v_k) * len(graph_set)] rows, sorted by graph and
    then by partition count, and returns.  The directory of line 265 is
    there at the start, and the external commands are any that remove no
    directory. *)
Theorem log_run_rewrites_whole_table run_parallel_commands algo_type
    overwrite set_name ordering hyper alg max_cores v_k gs d sfx buffer :
  (∀ cmds d', dirs d' ⊆ dirs (run_parallel_commands cmds d')) →
  scripts_dir ∈ dirs d →
  ordering_suffix ordering = Some sfx →
  task_stream_buffer (is_heistream algo_type) hyper
    (default "131072"%string (hyper !! "max_pq_size"%string)) = Some buffer →
  ∃ run rows,
    algo_parallel_body run_parallel_commands algo_type overwrite false
      set_name ordering hyper alg max_cores v_k gs d = Some run
    ∧ tables (lr_disk run)
        !! path_join (get_processed_output_dir set_name ordering max_cores)
             (alg +:+ ".csv")
      = Some (render_row <$> rows)
    ∧ length rows = (length v_k * length gs)%nat
    ∧ length (lr_tasklist run) = length rows
    ∧ StronglySorted graph_k_le rows.
Proof.
  intros Hexec Hscripts Hsfx Hbuf.
  destruct (expand_tasks_keys (is_heistream algo_type)
              (get_fbs_output_dir set_name ordering alg max_cores) ordering
              hyper sfx buffer v_k gs Hsfx Hbuf) as (ts & Hts & Hkeys).
  assert (length ts = (length v_k * length gs)%nat) as Hlen.
  { by rewrite <-(length_fmap task_key), Hkeys, k_major_length,
      length_fmap. }
  unfold algo_parallel_body. rewrite chdir_Some.
  2:{ cbn [dirs makedirs]. apply elem_of_union. left.
      by apply elem_of_singleton. }
  cbn [mbind option_bind]. rewrite Hts. cbn [mbind option_bind].
  pose proof (decide_tasks_dirs overwrite ts
                (makedirs (get_fbs_output_dir set_name ordering alg
                             max_cores) d)) as Hdirs.
  destruct (decide_tasks overwrite ts _) as [d1 decs]. cbn [fst] in Hdirs.
  set (d2 := submit run_parallel_commands (LogCommand <$> to_execute decs)
               d1).
  assert (dirs d1 ⊆ dirs d2) as Hsub.
  { subst d2. unfold submit.
    destruct (LogCommand <$> to_execute decs); [done|]. apply Hexec. }
  assert (get_fbs_output_dir set_name ordering alg max_cores ∈ dirs d2)
    as Hdir.
  { apply Hsub. rewrite Hdirs. cbn [dirs makedirs]. apply elem_of_union.
    left. by apply elem_of_singleton. }
  assert (scripts_dir ∈ dirs d2) as Hleft.
  { apply Hsub. rewrite Hdirs. cbn [dirs makedirs]. apply elem_of_union.
    by right. }
  clearbody d2. rewrite chdir_Some.
  2:{ rewrite convert_main_dirs. apply elem_of_union. by right. }
  cbn [mbind option_bind].
  eexists _,
    (convert_rows ts alg set_name
       (makedirs (get_processed_output_dir set_name ordering max_cores) d2)).
  split; [done|]. cbn [lr_disk lr_tasklist].
  assert (length (convert_rows ts alg set_name
                    (makedirs (get_processed_output_dir set_name ordering
                                 max_cores) d2)) = length ts) as Hrows.
  { unfold convert_rows.
    by rewrite !(Permutation_length (py_sort_Permutation _ _)),
      length_fmap. }
  split_and!.
  - unfold convert_main, exists_dir. rewrite bool_decide_eq_true_2.
    2:{ cbn [dirs makedirs]. apply elem_of_union. by right. }
    cbn [negb]. unfold write_table. cbn [tables set_tables].
    by rewrite lookup_insert_eq.
  - by rewrite Hrows.
  - by rewrite Hrows.
  - apply convert_rows_sorted.
Qed.
End Further.

(** * Scenarios of the further properties *)

Section FurtherScenarios.
#[local] Existing Instance reference_platform.

Lemma heistream_default_buffer :
  task_stream_buffer true ∅
    (default "131072"%string
       ((∅ : gmap string string) !! "max_pq_size"%string))
  = Some "32768"%string.
Proof. by vm_compute. Qed.

Lemma expansion_one_task_per_pair_witness :
  ordering_suffix "random" = Some "_r1"%string
  ∧ ∃ ts, expand_tasks true "/out" "random" ∅ [4; 8] ["g1"; "g2"] = Some ts
          ∧ length ts = 4%nat.
Proof.
  split; [reflexivity|].
  destruct (expansion_one_task_per_pair true "/out" "random" ∅ "_r1" "32768"
              [4; 8] ["g1"; "g2"] eq_refl heistream_default_buffer)
    as (ts & Hts & Hlen & _).
  exists ts. split; [exact Hts|exact Hlen].
Defined.

Lemma invalid_ordering_needs_a_pair_witness :
  ordering_suffix "sorted" = None
  ∧ expand_tasks true "/out" "sorted" ∅ [4] ["g"] = None
  ∧ expand_tasks true "/out" "sorted" ∅ [] ["g"] = Some [].
Proof.
  split; [reflexivity|]. split.
  - exact (proj1 (invalid_ordering_needs_a_pair true "/out" "sorted" ∅ false
                    "alg" "/tmp/alg" [4] ["g"] (Scan empty_disk [] [])
                    eq_refl)).
  - exact (proj1 (invalid_ordering_needs_a_pair true "/out" "sorted" ∅ false
                    "alg" "/tmp/alg" [] ["g"] (Scan empty_disk [] [])
                    eq_refl)).
Defined.

Lemma heistream_pass_leaves_disk_witness :
  ∃ ts, expand_tasks true "/out" "natural" ∅ [4] ["g1"] = Some ts
        ∧ length ts = 1%nat
        ∧ (decide_tasks false ts legacy_disk).1 = legacy_disk.
Proof.
  destruct (expand_tasks_keys true "/out" "natural" ∅ EmptyString "32768"
              [4] ["g1"] eq_refl heistream_default_buffer)
    as (ts & Hts & Hkeys).
  exists ts. split; [exact Hts|]. split.
  - rewrite <-(length_fmap task_key), Hkeys. reflexivity.
  - exact (proj2 (heistream_pass_leaves_disk "/out" "natural" ∅ [4] ["g1"]
                    ts legacy_disk Hts)).
Defined.

Lemma set_without_entry_witness :
  SET_CONFIG !! "my_set"%string = None
  ∧ extract_log "alg" "my_set" stale_log_disk sample_task
    = produce_failed_result "alg" "g1" 4.
Proof.
  split; [reflexivity|].
  exact (proj2 (set_without_entry_gives_failed_rows "alg" "my_set"
                  stale_log_disk sample_task eq_refl)).
Defined.

Lemma zero_edges_witness :
  files zero_edges_disk !! fbs_target_path sample_task
  = Some (Text "g1.graph 0 0 8 1500 2048 17")
  ∧ extract_log "alg" "local_cc_set" zero_edges_disk sample_task
    = produce_failed_result "alg" "g1" 4.
Proof.
  split; [reflexivity|].
  refine (proj2 (zero_edges_gives_failed_row "alg" "local_cc_set"
                   zero_edges_disk sample_task "g1.graph 0 0 8 1500 2048 17"
                   {| log_GraphMetadata :=
                        Some {| Filename := Some (Some "g1.graph"%string);
                                NumEdges := 0 |};
                      log_PartitionConfiguration :=
                        Some {| Seed := 0; K := 8 |};
                      log_Runtime_TotalTime := Some (1500, 1000);
                      log_MemoryConsumption_MaxRss := Some 2048;
                      log_Metrics_EdgeCut := Some 17 |}
                   {| Filename := Some (Some "g1.graph"%string);
                      NumEdges := 0 |}
                   {| Seed := 0; K := 8 |} (SetConfig [8] [])
                   eq_refl eq_refl eq_refl eq_refl eq_refl _ eq_refl)).
  simpl. by left.
Defined.

Lemma bad_count_disk_table :
  tables bad_count_disk !! cuttana_csv_path "tuning_set" "natural" "alg" 4
  = Some [CsvRow "alg" "g" "0" "four" "1.0" "10" "5" "0.5" "1"].
Proof. unfold bad_count_disk. cbn [tables]. apply lookup_singleton_eq. Qed.

Lemma bad_partition_count_witness :
  py_int "four" = None
  ∧ cuttana_parallel_body (tee_line "1 2 3 4") false false "tuning_set"
      "natural" "alg" 4 [4; 8; 16] ["g"] bad_count_disk = None.
Proof.
  split; [reflexivity|].
  apply (bad_partition_count_aborts_run (tee_line "1 2 3 4") false
           "tuning_set" "natural" "alg" 4 [4; 8; 16] ["g"] bad_count_disk
           [CsvRow "alg" "g" "0" "four" "1.0" "10" "5" "0.5" "1"]
           (CsvRow "alg" "g" "0" "four" "1.0" "10" "5" "0.5" "1")).
  - exact bad_count_disk_table.
  - by left.
  - reflexivity.
Defined.

Lemma overwrite_scan_witness :
  ordering_suffix "random" = Some "_r1"%string
  ∧ ∃ st',
      scan_graphs true "alg" "/tmp/alg" "random" ["g1"; "g2"] [4; 8]
        adoptable_scan
      = Some (st', (λ q, (q, EXECUTE))
                     <$> [("g1_r1", 4); ("g1_r1", 8); ("g2_r1", 4);
                          ("g2_r1", 8)]%string)
      ∧ sc_disk st' = sc_disk adoptable_scan.
Proof.
  split; [reflexivity|].
  destruct (overwrite_scan_executes_every_pair "alg" "/tmp/alg" "random"
              "_r1" ["g1"; "g2"] [4; 8] adoptable_scan eq_refl)
    as (st' & Hscan & Hdisk & _).
  exists st'. split; [exact Hscan|exact Hdisk].
Defined.

Lemma scan_adopts_witness :
  parse_temp_line "alg" sample_info (sc_disk adoptable_scan)
  = Some (produce_result "alg" "g" (PStr "0") 16 (PStr "1.5") (PStr "20")
            (PStr "7") (PStr "0.1"))
  ∧ visit_pair false "alg" "/tmp/alg" "g" 16 adoptable_scan
    = (Scan (sc_disk adoptable_scan)
            [produce_result "alg" "g" (PStr "0") 16 (PStr "1.5") (PStr "20")
               (PStr "7") (PStr "0.1")] [],
       SKIP).
Proof.
  split; [reflexivity|].
  exact (scan_adopts_what_extraction_read "alg" "/tmp/alg" "g" 16
           adoptable_scan
           (produce_result "alg" "g" (PStr "0") 16 (PStr "1.5") (PStr "20")
              (PStr "7") (PStr "0.1"))
           eq_refl eq_refl).
Defined.



Lemma table_round_trip_witness :
  ∃ loaded,
    load_existing [4; 8; 16]
      (render_row <$> [produce_failed_result "alg" "g" 4;
                       produce_failed_result "alg" "g" 32])
    = Some loaded
    ∧ render_row <$> loaded
      = [render_row (produce_failed_result "alg" "g" 4)].
Proof.
  destruct (table_round_trip [4; 8; 16]
              [produce_failed_result "alg" "g" 4;
               produce_failed_result "alg" "g" 32])
    as (loaded & Hload & Hrender & _).
  - intros r Hr.
    apply elem_of_cons in Hr as [->|Hr]; [reflexivity|].
    apply elem_of_cons in Hr as [->|Hr]; [reflexivity|].
    by apply elem_of_nil in Hr.
  - exists loaded. split; [exact Hload|]. rewrite Hrender. reflexivity.
Defined.

Lemma command_file_round_trip_witness :
  command_lines ["  run a "; EmptyString; "run b"]%string
  = ["run a"; "run b"]%string.
Proof.
  destruct (command_file_round_trip
              ["  run a "; EmptyString; "run b"]%string) as [Hlines _].
  - repeat constructor.
  - rewrite Hlines. reflexivity.
Defined.

Lemma invocations_witness :
  NoDup ["stream_buffer"]%string
  ∧ ∃ v,
      dict_zip ["stream_buffer"]%string (split "32768 x")
        !! "stream_buffer"%string = Some v.
Proof.
  assert (NoDup ["stream_buffer"]%string) as Hnd.
  { apply NoDup_singleton. }
  split; [exact Hnd|].
  destruct (invocations_bind_every_hyperparameter (λ v, Some v) "heistream"
              [("stream_buffer", "sb")]%string [] ["7"; "32768 x"]%string
              (Invocation "heistream_sb32768"
                 (dict_zip ["stream_buffer"]%string (split "32768 x")))
              Hnd)
    as (conf & _ & _ & _ & Hbind & _).
  - right. by left.
  - destruct (Hbind 0%nat "stream_buffer"%string eq_refl) as (v & _ & Hv).
    exists v. exact Hv.
Defined.

Lemma surplus_tokens_witness :
  get_algo_name_new (λ v, Some v) "alg" "1 2 3"
    [("a", "x"); ("b", "y")]%string []
  = get_algo_name_new (λ v, Some v) "alg" "1 2 9 9"
      [("a", "x"); ("b", "y")]%string [].
Proof.
  exact (proj1 (surplus_tokens_are_ignored (λ v, Some v) "alg" "1 2 3"
                  "1 2 9 9" [("a", "x"); ("b", "y")]%string [] eq_refl)).
Defined.

Lemma log_run_witness :
  ordering_suffix "natural" = Some EmptyString
  ∧ scripts_dir ∈ dirs scripts_disk
  ∧ ∃ run rows,
      algo_parallel_body no_output "heistream" false false "local_cc_set"
        "natural" ∅ "alg" 4 [8] ["g1"; "g2"] scripts_disk = Some run
      ∧ tables (lr_disk run)
          !! path_join (get_processed_output_dir "local_cc_set" "natural" 4)
               "alg.csv"
        = Some (render_row <$> rows)
      ∧ length rows = 2%nat.
Proof.
  split; [reflexivity|]. split; [exact scripts_disk_has_dir|].
  destruct (log_run_rewrites_whole_table no_output "heistream" false
              "local_cc_set" "natural" ∅ "alg" 4 [8] ["g1"; "g2"]
              scripts_disk EmptyString "32768")
    as (run & rows & Hrun & Htable & Hlen & _).
  - intros cmds d'. reflexivity.
  - exact scripts_disk_has_dir.
  - reflexivity.
  - exact heistream_default_buffer.
  - exists run, rows. split; [exact Hrun|]. split; [exact Htable|exact Hlen].
Defined.
End FurtherScenarios.
